(** * tiny_cnn/network.h: the network driver, embedded and verified

    The class template [network<LossFunction, Optimizer>] drives a chain of
    layers: forward and backward propagation, mini-batch training, the
    numerical gradient check and the classification test.  The layers, the
    activation objects, the loss function and the optimizer are collaborators
    declared in other headers; they enter the development through the records
    and the class [Collaborators] below, so that every statement holds for
    whatever layers and arithmetic the network is instantiated with. *)

From Stdlib Require Import ZArith QArith Qabs Lia List Bool.
From stdpp Require Import base option list gmap.

Local Open Scope Z_scope.

(** ** Machine integers *)

(** [size_t] is taken to be 64 bits wide and [int] 32 bits wide. *)
Definition SIZE_MODULUS : Z := 2 ^ 64.
Definition INT_MAX : Z := 2 ^ 31 - 1.
Definition INT_MIN : Z := - 2 ^ 31.

(** Conversion to [size_t], and unsigned arithmetic: reduction modulo 2^64. *)
Definition to_size (z : Z) : Z := z mod SIZE_MODULUS.

(** Conversion to [int]: the value congruent modulo 2^32 in the signed range. *)
Definition to_int (z : Z) : Z := (z + 2 ^ 31) mod 2 ^ 32 - 2 ^ 31.

Definition in_int_range (z : Z) : bool := (INT_MIN <=? z) && (z <=? INT_MAX).

(** [v[i]] read at a machine index: no value outside the vector. *)
Definition at_index {A : Type} (v : list A) (i : Z) : option A :=
  if i <? 0 then None else v !! Z.to_nat i.

(** ** Outcomes of a call *)

Inductive nn_error : Type :=
| input_dimension_mismatch
| unknown_grad_check_type.

Inductive abort_kind : Type :=
| OutOfBounds
| NullDeref
| DivByZero
| IntOverflow
| AssertFailed.

(** A call on a state of type [S] returns a value and the new state, throws
    an [nn_error] (the state is left as it was when the exception was
    raised), or has no defined behaviour. *)
Inductive outcome (S A : Type) : Type :=
| Ret (a : A) (s : S)
| Throw (e : nn_error) (s : S)
| Abort (k : abort_kind).

Arguments Ret {S A} a s.
Arguments Throw {S A} e s.
Arguments Abort {S A} k.

Definition returns {S A : Type} (o : outcome S A) : Prop :=
  exists a s, o = Ret a s.

(** ** Floating point arithmetic

    [float_t] is kept abstract: the operations the network itself performs on
    it are the fields of [FloatOps].  [flit q] is the [float_t] denoted by the
    literal [q]. *)
Class FloatOps (F : Type) : Type := {
  flit : Q -> F;
  fadd : F -> F -> F;
  fsub : F -> F -> F;
  fmul : F -> F -> F;
  fdiv : F -> F -> F;
  fabs : F -> F;
  fgt : F -> F -> bool
}.

(** ** Activation and loss functions *)

(** The classes [typeid] tells apart in [is_canonical_link]. *)
Inductive activation_id : Type :=
| sigmoid | tan_h | identity | softmax | other_activation (n : nat).

Inductive loss_id : Type :=
| cross_entropy | mse | cross_entropy_multiclass | other_loss (n : nat).

(** An [activation::function] object: its dynamic type and the members the
    network calls. *)
Record activation (F : Type) : Type := {
  act_typeid : activation_id;
  act_df : F -> F;
  act_df_row : list F -> nat -> list F;
  act_scale : F * F
}.
Arguments act_typeid {F} _.
Arguments act_df {F} _ _.
Arguments act_df_row {F} _ _ _.
Arguments act_scale {F} _.

(** The template argument [LossFunction]: its type, [E::f] and
    [gradient<E>]. *)
Record loss_function (F : Type) : Type := {
  E_typeid : loss_id;
  E_f : F -> F -> F;
  E_gradient : list F -> list F -> list F
}.
Arguments E_typeid {F} _.
Arguments E_f {F} _ _ _.
Arguments E_gradient {F} _ _ _.

(** ** Layers and the network state *)

(** What the network reads and writes of a layer: the parameter vectors, the
    gradient accumulators of every worker slot, and the layer's own data
    [self] (its kind, shape and buffers). *)
Record layer_base (F L : Type) : Type := mk_layer {
  weight : list F;
  bias : list F;
  weight_diff : list (list F);
  bias_diff : list (list F);
  self : L
}.
Arguments mk_layer {F L} _ _ _ _ _.
Arguments weight {F L} _.
Arguments bias {F L} _.
Arguments weight_diff {F L} _.
Arguments bias_diff {F L} _.
Arguments self {F L} _.

(** The data members of [network]: [layers_] in chain order (the head first;
    [next()] of a layer is its successor in the list) and [optimizer_]. *)
Record network (F L O : Type) : Type := mk_network {
  layers_ : list (layer_base F L);
  optimizer_ : O
}.
Arguments mk_network {F L O} _ _.
Arguments layers_ {F L O} _.
Arguments optimizer_ {F L O} _.

(** The members of [layer_base], [layers] and the optimizer that the network
    calls, and the helpers of util.h.  [forward_propagation] is the call on
    the head layer, [back_propagation] and [back_propagation_2nd] the calls
    on the tail layer; each may rewrite any layer of the chain. *)
Class Collaborators (F L O : Type) : Type := {
  CNN_TASK_SIZE : Z;
  in_size : L -> nat;
  out_size : L -> nat;
  activation_function : L -> activation F;
  forward_propagation :
    list F -> Z -> list (layer_base F L) -> list F * list (layer_base F L);
  back_propagation :
    list F -> Z -> list (layer_base F L) -> list (layer_base F L);
  back_propagation_2nd :
    list F -> list (layer_base F L) -> list (layer_base F L);
  init_weight : list (layer_base F L) -> list (layer_base F L);
  set_parallelize : bool -> list (layer_base F L) -> list (layer_base F L);
  is_exploded : list (layer_base F L) -> bool;
  update_weights :
    O -> Z -> Z -> list (layer_base F L) -> list (layer_base F L) * O;
  divide_hessian : Z -> list (layer_base F L) -> list (layer_base F L);
  optimizer_reset : O -> O;
  requires_hessian : O -> bool;
  max_index : list F -> nat;
  dot : list F -> list F -> nat -> F
}.

(** ** The call monad *)

Definition M (S A : Type) : Type := S -> outcome S A.

Definition ret {S A : Type} (a : A) : M S A := fun s => Ret a s.

Definition bind {S A B : Type} (m : M S A) (k : A -> M S B) : M S B :=
  fun s =>
    match m s with
    | Ret a s' => k a s'
    | Throw e s' => Throw e s'
    | Abort u => Abort u
    end.

Definition throw {S A : Type} (e : nn_error) : M S A := fun s => Throw e s.
Definition abort {S A : Type} (k : abort_kind) : M S A := fun _ => Abort k.
Definition get {S : Type} : M S S := fun s => Ret s s.
Definition put {S : Type} (s : S) : M S unit := fun _ => Ret tt s.

(** The one unbounded loop, that of [train] over the mini-batches, is run on
    fuel: [None] stands for a run that has not finished within the
    iterations allotted to it. *)
Definition bind_fuel {S A B : Type} (o : option (outcome S A))
    (k : A -> S -> option (outcome S B)) : option (outcome S B) :=
  match o with
  | None => None
  | Some (Ret a s) => k a s
  | Some (Throw e s) => Some (Throw e s)
  | Some (Abort u) => Some (Abort u)
  end.

(** An access that has a value only in bounds. *)
Definition checked {S A : Type} (k : abort_kind) (o : option A) : M S A :=
  match o with
  | Some a => ret a
  | None => abort k
  end.

Declare Scope call_scope.
Delimit Scope call_scope with call.
Notation "'do' x <- m ; k" := (bind m (fun x => k))
  (at level 10, x name, m at level 100, k at level 200) : call_scope.
Notation "'do_' m ; k" := (bind m (fun _ => k))
  (at level 10, m at level 100, k at level 200) : call_scope.
Local Open Scope call_scope.

(** [for (i = start; i < start + count; i++) body(i)], and [for_i] run on one
    thread. *)
Fixpoint for_range {S : Type} (start count : nat) (body : nat -> M S unit)
  : M S unit :=
  match count with
  | O => ret tt
  | Datatypes.S c => do_ body start; for_range (Datatypes.S start) c body
  end.

(** The same loop building a value from [acc]. *)
Fixpoint fold_range {S A : Type} (start count : nat)
    (body : nat -> A -> M S A) (acc : A) : M S A :=
  match count with
  | O => ret acc
  | Datatypes.S c =>
      do acc' <- body start acc; fold_range (Datatypes.S start) c body acc'
  end.

(** A loop left by [return false] as soon as one check fails. *)
Fixpoint all_range {S : Type} (start count : nat) (check : nat -> M S bool)
  : M S bool :=
  match count with
  | O => ret true
  | Datatypes.S c =>
      do ok <- check start;
      if ok then all_range (Datatypes.S start) c check else ret false
  end.

(** ** The result of a classification test *)

Record result : Type := mk_result {
  num_success : Z;
  num_total : Z;
  confusion_matrix : gmap nat (gmap nat Z)
}.

(** [x++] on an [int]. *)
Definition int_incr {S : Type} (x : Z) : M S Z :=
  if x <? INT_MAX then ret (x + 1) else abort IntOverflow.

(** [confusion_matrix[predicted][actual]], which creates a missing row or
    cell holding zero. *)
Definition cm_row (m : gmap nat (gmap nat Z)) (predicted : nat) : gmap nat Z :=
  default ∅ (m !! predicted).

Definition cm_cell (m : gmap nat (gmap nat Z)) (predicted actual : nat) : Z :=
  default 0 (cm_row m predicted !! actual).

Definition cm_set (m : gmap nat (gmap nat Z)) (predicted actual : nat) (c : Z)
  : gmap nat (gmap nat Z) :=
  <[predicted := <[actual := c]> (cm_row m predicted)]> m.

(** The sum of the cells of a row, and of the whole matrix. *)
Definition row_total (row : gmap nat Z) : Z :=
  map_fold (fun _ c acc => c + acc) 0 row.

Definition cm_total (m : gmap nat (gmap nat Z)) : Z :=
  map_fold (fun _ row acc => row_total row + acc) 0 m.

(** ** The gradient check *)

Inductive grad_check_mode : Type :=
| GRAD_CHECK_ALL
| GRAD_CHECK_RANDOM
| grad_check_other (n : Z).

(** The two parameter vectors of a layer that are checked. *)
Inductive param_sel : Type := sel_weight | sel_bias.

(** ** The propagation engine *)

(** The three kinds of training signal [bprop] is overloaded on. *)
Inductive target (F : Type) : Type :=
| target_vec (v : list F)
| target_label (t : nat)
| target_pair (t : nat) (x : F).
Arguments target_vec {F} v.
Arguments target_label {F} t.
Arguments target_pair {F} t x.

Section Network.
Context {float_t L Optimizer : Type}.
Context {float_ops : FloatOps float_t}.
Context {collab : Collaborators float_t L Optimizer}.

(** The template argument [LossFunction]. *)
Variable E : loss_function float_t.

Abbreviation vec_t := (list float_t).
Abbreviation layer := (layer_base float_t L).
Abbreviation net := (network float_t L Optimizer).
Abbreviation call := (M net).

(** [layers_.head()] and [layers_.tail()], dereferenced. *)
Definition layers_head : call layer :=
  do s <- get; checked NullDeref (head (layers_ s)).

Definition layers_tail : call layer :=
  do s <- get; checked NullDeref (last (layers_ s)).

Definition set_layers (ls : list layer) : call unit :=
  do s <- get; put (mk_network ls (optimizer_ s)).

Definition in_dim : call nat :=
  do l <- layers_head; ret (in_size (self l)).

Definition out_dim : call nat :=
  do l <- layers_tail; ret (out_size (self l)).

Definition target_value_min : call float_t :=
  do l <- layers_tail; ret (fst (act_scale (activation_function (self l)))).

Definition target_value_max : call float_t :=
  do l <- layers_tail; ret (snd (act_scale (activation_function (self l)))).

(** [vec_t result(out_dim(), target_value_min());
    result[t] = target_value_max();] *)
Definition label2vector (t : nat) : call vec_t :=
  do n <- out_dim;
  do lo <- target_value_min;
  let result := replicate n lo in
  do hi <- target_value_max;
  if decide (t < length result)%nat
  then ret (<[t := hi]> result)
  else abort OutOfBounds.

Definition is_canonical_link (h : activation float_t) : bool :=
  match act_typeid h, E_typeid E with
  | sigmoid, cross_entropy => true
  | tan_h, cross_entropy => true
  | identity, mse => true
  | softmax, cross_entropy_multiclass => true
  | _, _ => false
  end.

(** Modelled from the spec: [data_mismatch], declared with the layers,
    reports the dimension mismatch by throwing. *)
Definition data_mismatch : call unit := throw input_dimension_mismatch.

Definition fprop (input : vec_t) (idx : Z) : call vec_t :=
  do d <- in_dim;
  do_ (if decide (length input = d) then ret tt else data_mismatch);
  do s <- get;
  let r := forward_propagation input idx (layers_ s) in
  do_ set_layers (snd r);
  ret (fst r).

Definition predict (input : vec_t) : call vec_t := fprop input 0.

Definition fprop_max_index (input : vec_t) (idx : Z) : call nat :=
  do out <- fprop input idx; ret (max_index out).

(** [get_loss(out, t)]: the loss summed over the output positions. *)
Definition get_loss {S : Type} (out t : vec_t) : M S float_t :=
  if decide (length out = length t) then
    fold_range 0 (length out)
      (fun i e =>
         do o <- checked OutOfBounds (out !! i);
         do ti <- checked OutOfBounds (t !! i);
         ret (fadd e (E_f E o ti)))
      (flit 0)
  else abort AssertFailed.

Definition tail_back_propagation (delta : vec_t) (idx : Z) : call unit :=
  do s <- get; set_layers (back_propagation delta idx (layers_ s)).

Definition tail_back_propagation_2nd (delta : vec_t) : call unit :=
  do s <- get; set_layers (back_propagation_2nd delta (layers_ s)).

(** The delta of the canonical-link shortcut, [delta[i] = out[i] - t[i]]. *)
Definition delta_canonical {S : Type} (n : nat) (out t : vec_t)
  : M S vec_t :=
  fold_range 0 n
    (fun i delta =>
       do o <- checked OutOfBounds (out !! i);
       do ti <- checked OutOfBounds (t !! i);
       ret (<[i := fsub o ti]> delta))
    (replicate n (flit 0)).

(** The delta of the general case, [(dE/dy) * (dy/da)] row by row. *)
Definition delta_general {S : Type} (h : activation float_t) (n : nat)
    (out t : vec_t) : M S vec_t :=
  let dE_dy := E_gradient E out t in
  fold_range 0 n
    (fun i delta =>
       let dy_da := act_df_row h out i in
       ret (<[i := dot dE_dy dy_da n]> delta))
    (replicate n (flit 0)).

Definition bprop_vec (out t : vec_t) (idx : Z) : call unit :=
  do n <- out_dim;
  do l <- layers_tail;
  let h := activation_function (self l) in
  do delta <- (if is_canonical_link h
               then delta_canonical n out t
               else delta_general h n out t);
  tail_back_propagation delta idx.

Definition bprop_label (out : vec_t) (t : nat) (idx : Z) : call unit :=
  do v <- label2vector t; bprop_vec out v idx.

Definition bprop_pair (out : vec_t) (t : nat) (x : float_t) (idx : Z)
  : call unit :=
  do l <- layers_tail;
  let h := activation_function (self l) in
  do delta <-
    (if is_canonical_link h then
       do n <- out_dim;
       let delta := replicate n (flit 0) in
       do o <- checked OutOfBounds (out !! t);
       if decide (t < length delta)%nat
       then ret (<[t := fsub o x]> delta)
       else abort OutOfBounds
     else
       do t_vector <- (if decide (t < length out)%nat
                       then ret (<[t := x]> out)
                       else abort OutOfBounds);
       let dE_dy := E_gradient E out t_vector in
       do n <- out_dim;
       fold_range 0 n
         (fun i delta =>
            do n' <- out_dim;
            let dy_da := act_df_row h out i in
            ret (delta ++ [dot dE_dy dy_da n']))
         []);
  tail_back_propagation delta idx.

Definition bprop (out : vec_t) (t : target float_t) (idx : Z) : call unit :=
  match t with
  | target_vec v => bprop_vec out v idx
  | target_label l => bprop_label out l idx
  | target_pair l x => bprop_pair out l x idx
  end.

Definition bprop_2nd (out : vec_t) : call unit :=
  do n <- out_dim;
  do l <- layers_tail;
  let h := activation_function (self l) in
  do delta <-
    fold_range 0 n
      (fun i delta =>
         do hi <- target_value_max;
         do o <- checked OutOfBounds (out !! i);
         ret (<[i := if is_canonical_link h
                     then fmul hi (act_df h o)
                     else fmul (fmul hi (act_df h o)) (act_df h o)]> delta))
      (replicate n (flit 0));
  tail_back_propagation_2nd delta.

(** ** The trainer *)

(** The result of a signed [int] operation; overflow has no defined
    behaviour. *)
Definition checked_int {S : Type} (z : Z) : M S Z :=
  if in_int_range z then ret z else abort IntOverflow.

(** [for (int j = start; j < stop; ++j) body(j)]. *)
Definition for_int {S : Type} (start stop : Z) (body : Z -> M S unit)
  : M S unit :=
  for_range 0 (Z.to_nat (stop - start))
    (fun k => body (start + Z.of_nat k)).

(** Modelled from the spec: [for_i(count, f, grainsize)], the parallel-for
    primitive of util.h, "executes all indices"; here on one thread, in
    increasing order. *)
Definition for_i {S : Type} (count : Z) (body : Z -> M S unit) : M S unit :=
  for_int 0 count body.

Definition layers_update_weights (worker_size batch_size : Z) : call unit :=
  do s <- get;
  let r := update_weights (optimizer_ s) worker_size batch_size (layers_ s) in
  put (mk_network (fst r) (snd r)).

Section Train.
(** The accessors of the data set: [input_data_function(i)] and
    [output_data_function(i, task)].  The second may itself run the
    network. *)
Variable input_data_function : Z -> call vec_t.
Variable output_data_function : Z -> Z -> call (target float_t).

Definition train_onebatch (in_offset in_size num_tasks : Z) : call unit :=
  let num_threads := Z.min (to_int in_size) num_tasks in
  do data_per_thread <-
    (if to_size num_threads =? 0 then abort DivByZero
     else ret (to_int (to_size (in_size + to_size num_threads - 1)
                       / to_size num_threads)));
  let last_index := to_int (to_size (in_offset + in_size)) in
  do_ for_i num_threads
    (fun i =>
       do share <- checked_int (i * data_per_thread);
       let start_index := to_int (to_size (in_offset + to_size share)) in
       do stop <- checked_int (start_index + data_per_thread);
       let end_index := Z.min last_index stop in
       for_int start_index end_index
         (fun j =>
            do t <- output_data_function j i;
            do x <- input_data_function j;
            do out <- fprop x i;
            bprop out t i));
  layers_update_weights num_threads in_size.

Definition train_once (in_offset in_size num_tasks : Z) : call unit :=
  if in_size =? 1 then
    do t <- output_data_function in_offset 0;
    do x <- input_data_function 0;
    do out <- fprop x 0;
    do_ bprop out t 0;
    layers_update_weights 1 1
  else train_onebatch in_offset in_size num_tasks.

Definition calc_hessian (in_size size_initialize_hessian : Z)
  : call unit :=
  let size := to_int (Z.min in_size size_initialize_hessian) in
  do_ for_int 0 size
    (fun i =>
       do x <- input_data_function i;
       do out <- fprop x 0;
       bprop_2nd out);
  do s <- get; set_layers (divide_hessian size (layers_ s)).

(** The callbacks, and the other arguments of [train]. *)
Variable on_batch_enumerate : call unit.
Variable on_epoch_enumerate : call unit.
Variable in_size batch_size : Z.
Variable n_threads : Z.

(** A mini-batch that was run: its offset and the network as the check
    for exploded weights saw it. *)
Definition step : Type := (Z * net)%type.

Definition explosion_detected (st : step) : bool :=
  (fst st mod 100 =? 0) && is_exploded (layers_ (snd st)).

(** [for (size_t i = ...; i < in_size; i += batch_size)], entered at [i].
    The loop returns [false] for the [return false] of the source and
    [true] when it runs to its end; with it, the mini-batches it ran.
    The check reads the network as [on_batch_enumerate] left it. *)
Fixpoint train_batches (fuel : nat) (i : Z) (s : net)
  : option (outcome net (bool * list step)) :=
  match fuel with
  | 0%nat => None
  | Datatypes.S fuel' =>
      if i <? in_size then
        bind_fuel
          (Some ((do_ train_once i
                        (Z.min batch_size (to_size (in_size - i)))
                        n_threads;
                  on_batch_enumerate) s))
          (fun _ s1 =>
             if explosion_detected (i, s1)
             then Some (Ret (false, [(i, s1)]) s1)
             else
               bind_fuel (train_batches fuel' (to_size (i + batch_size)) s1)
                 (fun r s' => Some (Ret (fst r, (i, s1) :: snd r) s')))
      else Some (Ret (true, []) s)
  end.

(** [for (int iter = ...; iter < epoch; iter++)] with [epochs] rounds
    left. *)
Fixpoint train_epochs (fuel : nat) (epochs : nat) (s : net)
  : option (outcome net (bool * list step)) :=
  match epochs with
  | 0%nat => Some (Ret (true, []) s)
  | Datatypes.S epochs' =>
      bind_fuel
        (Some ((if requires_hessian (optimizer_ s)
                then calc_hessian in_size 500 else ret tt) s))
        (fun _ s0 =>
           bind_fuel (train_batches fuel 0 s0)
             (fun r s1 =>
                if fst r then
                  bind_fuel (Some (on_epoch_enumerate s1))
                    (fun _ s2 =>
                       bind_fuel (train_epochs fuel epochs' s2)
                         (fun r' s3 =>
                            Some (Ret (fst r', snd r ++ snd r') s3)))
                else Some (Ret (false, snd r) s1)))
  end.

(** What [train] does before the first epoch. *)
Definition train_prologue (reset_weights : bool) : call unit :=
  do_ (if reset_weights
       then do s <- get; set_layers (init_weight (layers_ s))
       else ret tt);
  do s <- get;
  do_ set_layers
        (set_parallelize (batch_size <? to_size CNN_TASK_SIZE) (layers_ s));
  do s <- get;
  put (mk_network (layers_ s) (optimizer_reset (optimizer_ s))).

(** [train]: the value returned, and the mini-batches run.  [fuel] bounds
    the iterations of the mini-batch loop of one epoch. *)
Definition train (fuel : nat) (epoch : Z) (reset_weights : bool) (s : net)
  : option (outcome net (bool * list step)) :=
  bind_fuel (Some (train_prologue reset_weights s))
    (fun _ s0 => train_epochs fuel (Z.to_nat epoch) s0).

End Train.

(** ** Evaluation *)

(** The body of the loop of [test], for the sample [i]. *)
Definition test_sample (inputs : list vec_t) (t : list nat) (i : nat)
    (test_result : result) : call result :=
  do x <- checked OutOfBounds (inputs !! i);
  do predicted <- fprop_max_index x 0;
  do actual <- checked OutOfBounds (t !! i);
  do successes <-
    (if decide (predicted = actual)
     then int_incr (num_success test_result)
     else ret (num_success test_result));
  do total <- int_incr (num_total test_result);
  do cell <-
    int_incr (cm_cell (confusion_matrix test_result) predicted actual);
  ret (mk_result successes total
         (cm_set (confusion_matrix test_result) predicted actual cell)).

Definition test (inputs : list vec_t) (t : list nat) : call result :=
  fold_range 0 (length inputs) (test_sample inputs t) (mk_result 0 0 ∅).

(** ** The gradient verifier *)

Definition param (sel : param_sel) (l : layer) : vec_t :=
  match sel with sel_weight => weight l | sel_bias => bias l end.

Definition set_param (sel : param_sel) (v : vec_t) (l : layer) : layer :=
  match sel with
  | sel_weight => mk_layer v (bias l) (weight_diff l) (bias_diff l) (self l)
  | sel_bias => mk_layer (weight l) v (weight_diff l) (bias_diff l) (self l)
  end.

(** [weight_diff(0)] and [bias_diff(0)]: the accumulators of slot 0. *)
Definition diff0 (sel : param_sel) (l : layer) : option vec_t :=
  match sel with
  | sel_weight => weight_diff l !! 0%nat
  | sel_bias => bias_diff l !! 0%nat
  end.

Definition set_diff0 (sel : param_sel) (v : vec_t) (l : layer) : layer :=
  match sel with
  | sel_weight =>
      mk_layer (weight l) (bias l) (<[0%nat := v]> (weight_diff l))
        (bias_diff l) (self l)
  | sel_bias =>
      mk_layer (weight l) (bias l) (weight_diff l)
        (<[0%nat := v]> (bias_diff l)) (self l)
  end.

(** The layer [current] points to, the [k]-th of the chain. *)
Definition layer_at (k : nat) : call layer :=
  do s <- get; checked OutOfBounds (layers_ s !! k).

Definition set_layer_at (k : nat) (l : layer) : call unit :=
  do s <- get; set_layers (<[k := l]> (layers_ s)).

(** [w[check_index]] read and written through the reference [w]. *)
Definition read_param (k : nat) (sel : param_sel) (check_index : Z)
  : call float_t :=
  do l <- layer_at k; checked OutOfBounds (at_index (param sel l) check_index).

Definition write_param (k : nat) (sel : param_sel) (check_index : Z)
    (x : float_t) : call unit :=
  do l <- layer_at k;
  match at_index (param sel l) check_index with
  | Some _ =>
      set_layer_at k
        (set_param sel (<[Z.to_nat check_index := x]> (param sel l)) l)
  | None => abort OutOfBounds
  end.

(** [static const float_t delta = 1e-10;] *)
Definition delta : float_t := flit (1 # 10000000000).

Section GradientCheck.
(** [in] and [v], the arrays of inputs and of expanded targets. *)
Variable inputs : list vec_t.
Variable v : list vec_t.
Variable data_size : Z.

(** [w] and [dw] are the parameter vector [sel] of layer [k] and its
    slot-0 accumulator. *)
Definition calc_delta (k : nat) (sel : param_sel) (check_index : Z)
  : call float_t :=
  do l <- layer_at k;
  do dw <- checked OutOfBounds (diff0 sel l);
  do_ set_layer_at k (set_diff0 sel (replicate (length dw) (flit 0)) l);
  do prev_w <- read_param k sel check_index;
  do_ write_param k sel check_index (fadd prev_w delta);
  do f_p <-
    fold_range 0 (Z.to_nat data_size)
      (fun i f_p =>
         do x <- checked OutOfBounds (inputs !! i);
         do out <- fprop x 0;
         do t <- checked OutOfBounds (v !! i);
         do e <- get_loss out t;
         ret (fadd f_p e))
      (flit 0);
  do_ write_param k sel check_index (fsub prev_w delta);
  do f_m <-
    fold_range 0 (Z.to_nat data_size)
      (fun i f_m =>
         do x <- checked OutOfBounds (inputs !! i);
         do out <- fprop x 0;
         do t <- checked OutOfBounds (v !! i);
         do e <- get_loss out t;
         ret (fadd f_m e))
      (flit 0);
  let delta_by_numerical :=
    fdiv (fsub f_p f_m) (fmul (flit 2) delta) in
  do_ write_param k sel check_index prev_w;
  do_ for_range 0 (Z.to_nat data_size)
    (fun i =>
       do x <- checked OutOfBounds (inputs !! i);
       do out <- fprop x 0;
       do t <- checked OutOfBounds (v !! i);
       bprop_vec out t 0);
  do l' <- layer_at k;
  do dw' <- checked OutOfBounds (diff0 sel l');
  do delta_by_bprop <- checked OutOfBounds (at_index dw' check_index);
  ret (fabs (fsub delta_by_bprop delta_by_numerical)).
End GradientCheck.

(** The draws of [uniform_idx]: the [i]-th index drawn for the vector
    [sel] of layer [k]. *)
Variable uniform_idx : nat -> param_sel -> nat -> Z.

(** The loop of [gradient_check] over the layers after the head, with the
    measurement [measure k sel i] made for the parameter [i] of the vector
    [sel] of layer [k].  The sizes are those of the chain on entry. *)
Definition check_layers (measure : nat -> param_sel -> Z -> call float_t)
    (eps : float_t) (mode : grad_check_mode) : call bool :=
  do s <- get;
  all_range 1 (length (layers_ s) - 1)
    (fun k =>
       do current <- layer_at k;
       do_ checked OutOfBounds (diff0 sel_weight current);
       do_ checked OutOfBounds (diff0 sel_bias current);
       let w := weight current in
       let b := bias current in
       if decide (w = []) then ret true
       else
         match mode with
         | GRAD_CHECK_ALL =>
             do ok <-
               all_range 0 (Z.to_nat (to_int (Z.of_nat (length w))))
                 (fun i =>
                    do d <- measure k sel_weight (Z.of_nat i);
                    ret (negb (fgt d eps)));
             if ok then
               all_range 0 (Z.to_nat (to_int (Z.of_nat (length b))))
                 (fun i =>
                    do d <- measure k sel_bias (Z.of_nat i);
                    ret (negb (fgt d eps)))
             else ret false
         | GRAD_CHECK_RANDOM =>
             do ok <-
               all_range 0 10
                 (fun i =>
                    do d <- measure k sel_weight (uniform_idx k sel_weight i);
                    ret (negb (fgt d eps)));
             if ok then
               all_range 0 10
                 (fun i =>
                    do d <- measure k sel_bias (uniform_idx k sel_bias i);
                    ret (negb (fgt d eps)))
             else ret false
         | grad_check_other _ => throw unknown_grad_check_type
         end).

(** The call [label2vector(t, data_size, &v)] of [gradient_check] names an
    overload the class does not define; it is read as [label2vector]
    applied to each of the first [data_size] labels. *)
Definition label2vector_all (t : list nat) (data_size : Z)
  : call (list vec_t) :=
  fold_range 0 (Z.to_nat data_size)
    (fun i acc =>
       do ti <- checked OutOfBounds (t !! i);
       do vi <- label2vector ti;
       ret (acc ++ [vi]))
    [].

Definition gradient_check (inputs : list vec_t) (t : list nat)
    (data_size : Z) (eps : float_t) (mode : grad_check_mode) : call bool :=
  do s <- get;
  do_ (if decide (layers_ s = []) then abort AssertFailed else ret tt);
  do v <- label2vector_all t data_size;
  check_layers
    (fun k sel i =>
       do_ (if decide (v = []) then abort OutOfBounds else ret tt);
       calc_delta inputs v data_size k sel i)
    eps mode.

(** ** Reference definitions the statements are made against *)

(** The number of mini-batches of [batch_size] samples that cover
    [in_size] samples. *)
Definition ceil_div (in_size batch_size : Z) : Z :=
  (in_size + batch_size - 1) / batch_size.

(** A record of mini-batches at none of which the check for exploded
    weights fired. *)
Definition undetected (log : list step) : Prop :=
  Forall (fun st => explosion_detected st = false) log.

(** The record of a run that was cut short: it ends with the mini-batch at
    which the explosion was detected, which left the network as [train]
    returns it, and holds no other detection. *)
Definition cut_short (log : list step) (s' : net) : Prop :=
  exists log0 st,
    log = log0 ++ [st] /\ undetected log0
    /\ explosion_detected st = true /\ s' = snd st.

(** The parameters of a chain: the weight and bias vector of each layer. *)
Definition params_of (ls : list layer) : list (vec_t * vec_t) :=
  (fun l => (weight l, bias l)) <$> ls.

Definition final_params {A : Type} (o : option (outcome net A))
  : option (list (vec_t * vec_t)) :=
  match o with
  | Some (Ret _ s) => Some (params_of (layers_ s))
  | _ => None
  end.

(** A call that leaves every weight and bias vector as it found it. *)
Definition keeps_params {A : Type} (m : call A) : Prop :=
  forall s a s',
    m s = Ret a s' -> params_of (layers_ s') = params_of (layers_ s).

(** The vector [sel] of a layer's pair of parameter vectors, and that pair
    with the element [i] of the vector set to [x]. *)
Definition pick (sel : param_sel) (p : vec_t * vec_t) : vec_t :=
  match sel with sel_weight => fst p | sel_bias => snd p end.

Definition poke (sel : param_sel) (i : nat) (x : float_t)
    (p : vec_t * vec_t) : vec_t * vec_t :=
  match sel with
  | sel_weight => (<[i := x]> (fst p), snd p)
  | sel_bias => (fst p, <[i := x]> (snd p))
  end.

(** The labels predicted for the samples, each on the network as the
    samples before it left it. *)
Fixpoint predicted_labels (inputs : list vec_t) (s : net) : list nat :=
  match inputs with
  | [] => []
  | x :: rest =>
      match fprop_max_index x 0 s with
      | Ret p s' => p :: predicted_labels rest s'
      | _ => []
      end
  end.

(** The number of positions at which a predicted label is the actual one. *)
Fixpoint agreements (predicted actual : list nat) : Z :=
  match predicted, actual with
  | p :: ps, a :: qs =>
      (if decide (p = a) then 1 else 0) + agreements ps qs
  | _, _ => 0
  end.

(** The gradient check as the specification words it, for a perturbation
    [epsilon]: the loss summed over all samples, ... *)
Definition total_loss (inputs v : list vec_t) (data_size : Z)
  : call float_t :=
  fold_range 0 (Z.to_nat data_size)
    (fun i sum =>
       do x <- checked OutOfBounds (inputs !! i);
       do out <- fprop x 0;
       do t <- checked OutOfBounds (v !! i);
       do e <- get_loss out t;
       ret (fadd sum e))
    (flit 0).

(** ... taken with the checked parameter set to [x], ... *)
Definition loss_with_param (inputs v : list vec_t) (data_size : Z)
    (k : nat) (sel : param_sel) (check_index : Z) (x : float_t)
  : call float_t :=
  do_ write_param k sel check_index x;
  total_loss inputs v data_size.

(** ... the central difference of the losses at [+epsilon] and [-epsilon],
    the parameter being restored, ... *)
Definition numerical_gradient (epsilon : float_t) (inputs v : list vec_t)
    (data_size : Z) (k : nat) (sel : param_sel) (check_index : Z)
  : call float_t :=
  do w0 <- read_param k sel check_index;
  do f_plus <-
    loss_with_param inputs v data_size k sel check_index (fadd w0 epsilon);
  do f_minus <-
    loss_with_param inputs v data_size k sel check_index (fsub w0 epsilon);
  do_ write_param k sel check_index w0;
  ret (fdiv (fsub f_plus f_minus) (fmul (flit 2) epsilon)).

(** ... the gradient accumulated by forward and backward propagation over
    all samples, read at the parameter's index, ... *)
Definition analytic_gradient (inputs v : list vec_t) (data_size : Z)
    (k : nat) (sel : param_sel) (check_index : Z) : call float_t :=
  do_ for_range 0 (Z.to_nat data_size)
    (fun i =>
       do x <- checked OutOfBounds (inputs !! i);
       do out <- fprop x 0;
       do t <- checked OutOfBounds (v !! i);
       bprop_vec out t 0);
  do l <- layer_at k;
  do dw <- checked OutOfBounds (diff0 sel l);
  checked OutOfBounds (at_index dw check_index).

Definition zero_accumulator (k : nat) (sel : param_sel) : call unit :=
  do l <- layer_at k;
  do dw <- checked OutOfBounds (diff0 sel l);
  set_layer_at k (set_diff0 sel (replicate (length dw) (flit 0)) l).

(** ... and the distance between the two. *)
Definition gradient_gap (epsilon : float_t) (inputs v : list vec_t)
    (data_size : Z) (k : nat) (sel : param_sel) (check_index : Z)
  : call float_t :=
  do_ zero_accumulator k sel;
  do numerical <-
    numerical_gradient epsilon inputs v data_size k sel check_index;
  do analytic <- analytic_gradient inputs v data_size k sel check_index;
  ret (fabs (fsub analytic numerical)).


End Network.

(** ** A small network to run the definitions on

    Exact rational arithmetic; a chain of an input layer and one layer with
    a single weight [w] that maps the input [x] to [w * w * x], with the
    identity activation and the mean squared error, trained by plain
    gradient descent with rate 1/4. *)
Module Toy.

#[export] Instance rational_ops : FloatOps Q := {|
  flit := Qred;
  fadd a b := Qred (a + b);
  fsub a b := Qred (a - b);
  fmul a b := Qred (a * b);
  fdiv a b := Qred (a / b);
  fabs a := Qred (Qabs a);
  fgt a b := negb (Qle_bool a b)
|}.

Record shape : Type := mk_shape {
  shape_in : nat;
  shape_out : nat;
  last_input : Q
}.

Definition first (v : list Q) : Q := nth 0 v 0%Q.

Definition unit_row (n i : nat) : list Q :=
  (fun j => if decide (j = i) then 1%Q else 0%Q) <$> seq 0 n.

Definition linear : activation Q := {|
  act_typeid := identity;
  act_df := fun _ => 1%Q;
  act_df_row := fun out i => unit_row (length out) i;
  act_scale := (0%Q, 1%Q)
|}.

Definition squared_error : loss_function Q := {|
  E_typeid := mse;
  E_f := fun o t => fdiv (fmul (fsub o t) (fsub o t)) 2%Q;
  E_gradient := fun out t => zip_with fsub out t
|}.

Definition remember (x : Q) (l : layer_base Q shape) : layer_base Q shape :=
  mk_layer (weight l) (bias l) (weight_diff l) (bias_diff l)
    (mk_shape (shape_in (self l)) (shape_out (self l)) x).

Definition forward (x : list Q) (idx : Z) (ls : list (layer_base Q shape))
  : list Q * list (layer_base Q shape) :=
  match ls !! 1%nat with
  | Some l =>
      let w := first (weight l) in
      ([fmul (fmul w w) (first x)], <[1%nat := remember (first x) l]> ls)
  | None => (x, ls)
  end.

Definition accumulate (g : Q) (slot : nat) (l : layer_base Q shape)
  : layer_base Q shape :=
  mk_layer (weight l) (bias l)
    (alter (fun dw => [fadd (first dw) g]) slot (weight_diff l))
    (bias_diff l) (self l).

Definition backward (dl : list Q) (idx : Z) (ls : list (layer_base Q shape))
  : list (layer_base Q shape) :=
  match ls !! 1%nat with
  | Some l =>
      let w := first (weight l) in
      let g := fmul (first dl) (fmul (fmul 2%Q w) (last_input (self l))) in
      <[1%nat := accumulate g (Z.to_nat idx) l]> ls
  | None => ls
  end.

Definition descend (worker_size batch_size : Z) (l : layer_base Q shape)
  : layer_base Q shape :=
  let total :=
    foldr (fun dw acc => fadd (first dw) acc) 0%Q
      (take (Z.to_nat worker_size) (weight_diff l)) in
  let w := first (weight l) in
  mk_layer [fsub w (fmul (1 # 4) (fdiv total (inject_Z batch_size)))]
    (bias l) ((fun _ => [0%Q]) <$> weight_diff l) (bias_diff l) (self l).

Definition update (o : unit) (worker_size batch_size : Z)
    (ls : list (layer_base Q shape)) : list (layer_base Q shape) * unit :=
  match ls !! 1%nat with
  | Some l => (<[1%nat := descend worker_size batch_size l]> ls, o)
  | None => (ls, o)
  end.

Definition too_large (w : Q) : bool := Qle_bool 1000 (Qabs w).

Definition exploded (ls : list (layer_base Q shape)) : bool :=
  existsb (fun l => existsb too_large (weight l) || existsb too_large (bias l))
    ls.

Fixpoint argmax (best : Q) (best_index next : nat) (v : list Q) : nat :=
  match v with
  | [] => best_index
  | x :: rest =>
      if Qle_bool x best then argmax best best_index (Datatypes.S next) rest
      else argmax x next (Datatypes.S next) rest
  end.

Definition first_maximum (v : list Q) : nat :=
  match v with
  | [] => 0%nat
  | x :: rest => argmax x 0%nat 1%nat rest
  end.

Definition inner (a b : list Q) (n : nat) : Q :=
  foldr (fun p acc => fadd (fmul (fst p) (snd p)) acc) 0%Q
    (take n (zip a b)).

#[export] Instance chain_ops : Collaborators Q shape unit := {|
  CNN_TASK_SIZE := 8;
  in_size := shape_in;
  out_size := shape_out;
  activation_function := fun _ => linear;
  forward_propagation := forward;
  back_propagation := backward;
  back_propagation_2nd := fun _ ls => ls;
  init_weight := fun ls => ls;
  set_parallelize := fun _ ls => ls;
  is_exploded := exploded;
  update_weights := update;
  divide_hessian := fun _ ls => ls;
  optimizer_reset := fun o => o;
  requires_hessian := fun _ => false;
  max_index := first_maximum;
  dot := inner
|}.

Definition input_layer : layer_base Q shape :=
  mk_layer [] [] [[]] [[]] (mk_shape 1 1 0%Q).

Definition square_layer (w : Q) : layer_base Q shape :=
  mk_layer [w] [] [[0%Q]] [[]] (mk_shape 1 1 0%Q).

Definition net0 (w : Q) : network Q shape unit :=
  mk_network [input_layer; square_layer w] tt.

(** A data set whose every input is [x] and every target [t]. *)
Definition constant_input (x : Q) (i : Z) : M (network Q shape unit) (list Q) :=
  ret [x].

Definition constant_target (t : Q) (i task : Z)
  : M (network Q shape unit) (target Q) :=
  ret (target_vec [t]).

(** A data set given by its lists of inputs and targets. *)
Definition list_input (xs : list (list Q)) (i : Z)
  : M (network Q shape unit) (list Q) :=
  checked OutOfBounds (at_index xs i).

Definition list_target (ts : list (list Q)) (i task : Z)
  : M (network Q shape unit) (target Q) :=
  do t <- checked OutOfBounds (at_index ts i); ret (target_vec t).

Definition no_callback : M (network Q shape unit) unit := ret tt.

Definition draw_first (k : nat) (sel : param_sel) (i : nat) : Z := 0.

(** [train] on [in_size] samples that all have input 1 and target 0, one
    task, the weight starting at [w]. *)
Definition training (in_size batch_size : Z) (fuel : nat) (epoch : Z)
    (w : Q) : option (outcome (network Q shape unit) (bool * list step)) :=
  train squared_error (constant_input 1) (constant_target 0) no_callback
    no_callback in_size batch_size 1 fuel epoch false (net0 w).

(** Two samples with different inputs. *)
Definition samples : list (list Q) := [[1%Q]; [3%Q]].
Definition targets : list (list Q) := [[0%Q]; [0%Q]].

End Toy.

(** ** The rest of the class: evaluation, data checks, comparison *)

(** What [check_training_data] reports in the [nn_error] it throws: the
    number of inputs differs from the number of targets, or the input or the
    target of index [i] has the wrong dimension. *)
Inductive data_error : Type :=
| count_mismatch
| input_dimension (i dim : nat)
| label_out_of_range (i t : nat)
| target_dimension (i dim : nat).

(** The outcomes of [check_training_data], which reads the network only. *)
Inductive data_check : Type :=
| data_ok
| data_rejected (e : data_error)
| data_undefined (k : abort_kind).

(** [labels()]: every key of a row and every key of a cell of the confusion
    matrix. *)
Definition labels (r : result) : gset nat :=
  map_fold
    (fun predicted row all_labels =>
       map_fold (fun actual _ all_labels' => {[actual]} ∪ all_labels')
         ({[predicted]} ∪ all_labels) row)
    ∅ (confusion_matrix r).

Section Evaluation.
Context {float_t L Optimizer : Type}.
Context {float_ops : FloatOps float_t}.
Context {collab : Collaborators float_t L Optimizer}.
Variable E : loss_function float_t.

Abbreviation vec_t := (list float_t).
Abbreviation layer := (layer_base float_t L).
Abbreviation net := (network float_t L Optimizer).
Abbreviation call := (M net).

(** [for_i] around a body that fills a local variable [acc]. *)
Definition fold_i {S A : Type} (count : Z) (body : Z -> A -> M S A) (acc : A)
  : M S A :=
  fold_range 0 (Z.to_nat (count - 0)) (fun k => body (0 + Z.of_nat k)) acc.

(** [test(in)]: the outputs of the network for a list of inputs. *)
Definition test_outputs (inputs : list vec_t) : call (list vec_t) :=
  fold_i (Z.of_nat (length inputs))
    (fun i test_result =>
       do x <- checked OutOfBounds (at_index inputs i);
       do out <- predict x;
       match at_index test_result i with
       | Some _ => ret (<[Z.to_nat i := out]> test_result)
       | None => abort OutOfBounds
       end)
    (replicate (length inputs) []).

(** [get_loss(in, t)] over a data set; [predict] is called twice for each
    sample. *)
Definition get_loss_all (inputs t : list vec_t) : call float_t :=
  fold_range 0 (length inputs)
    (fun i sum_loss =>
       do x <- checked OutOfBounds (inputs !! i);
       do predicted <- predict x;
       do x' <- checked OutOfBounds (inputs !! i);
       do out <- predict x';
       do ti <- checked OutOfBounds (t !! i);
       do e <- get_loss E out ti;
       ret (fadd sum_loss e))
    (flit 0).

(** [std::max_element]: the position of the first element that no later
    element is greater than, [*largest < *first] being [fgt first largest];
    none in an empty range. *)
Fixpoint max_element_from (v : vec_t) (largest : float_t)
    (largest_at next : nat) : nat :=
  match v with
  | [] => largest_at
  | x :: rest =>
      if fgt x largest
      then max_element_from rest x next (Datatypes.S next)
      else max_element_from rest largest largest_at (Datatypes.S next)
  end.

Definition max_element (v : vec_t) : option nat :=
  match v with
  | [] => None
  | x :: rest => Some (max_element_from rest x 0%nat 1%nat)
  end.

(** [fprop_max]: the iterator [max_element] returns is dereferenced. *)
Definition fprop_max (input : vec_t) (idx : Z) : call float_t :=
  do prediction <- fprop input idx;
  match max_element prediction with
  | Some i => checked OutOfBounds (prediction !! i)
  | None => abort OutOfBounds
  end.

Definition predict_max_value (input : vec_t) : call float_t :=
  fprop_max input 0.

Definition predict_label (input : vec_t) : call nat :=
  fprop_max_index input 0.

(** The two overloads of [check_t]: what they throw, if anything. *)
Definition check_t_label (i : nat) (t : nat) (dim_out : nat)
  : option data_error :=
  if decide (dim_out <= t)%nat then Some (label_out_of_range i t) else None.

Definition check_t_vec (i : nat) (t : vec_t) (dim_out : nat)
  : option data_error :=
  if decide (length t = dim_out) then None
  else Some (target_dimension i (length t)).

(** The loop of [check_training_data] over the samples [i], [i + 1], ... *)
Fixpoint check_samples {T : Type}
    (check_t : nat -> T -> nat -> option data_error) (dim_in dim_out : nat)
    (inputs : list vec_t) (t : list T) (i count : nat) : data_check :=
  match count with
  | 0%nat => data_ok
  | Datatypes.S count' =>
      match inputs !! i, t !! i with
      | Some x, Some ti =>
          if decide (length x = dim_in) then
            match check_t i ti dim_out with
            | Some e => data_rejected e
            | None =>
                check_samples check_t dim_in dim_out inputs t (Datatypes.S i)
                  count'
            end
          else data_rejected (input_dimension i (length x))
      | _, _ => data_undefined OutOfBounds
      end
  end.

(** [check_training_data], for the overload [check_t] of the target type. *)
Definition check_training_data {T : Type}
    (check_t : nat -> T -> nat -> option data_error) (inputs : list vec_t)
    (t : list T) (s : net) : data_check :=
  match head (layers_ s), last (layers_ s) with
  | Some first_layer, Some last_layer =>
      let dim_in := in_size (self first_layer) in
      let dim_out := out_size (self last_layer) in
      if decide (length inputs = length t) then
        check_samples check_t dim_in dim_out inputs t 0 (length inputs)
      else data_rejected count_mismatch
  | _, _ => data_undefined NullDeref
  end.

(** [has_same_weights]: the two chains are walked together while both have
    a layer left; [layer_same] is [layer_base::has_same_weights]. *)
Fixpoint same_weights_from {L2 : Type}
    (layer_same : layer -> layer_base float_t L2 -> float_t -> bool)
    (h1 : list layer) (h2 : list (layer_base float_t L2)) (eps : float_t)
  : bool :=
  match h1, h2 with
  | l1 :: rest1, l2 :: rest2 =>
      if layer_same l1 l2 eps then same_weights_from layer_same rest1 rest2 eps
      else false
  | _, _ => true
  end.

Definition has_same_weights {L2 O2 : Type}
    (layer_same : layer -> layer_base float_t L2 -> float_t -> bool)
    (n : net) (others : network float_t L2 O2) (eps : float_t) : bool :=
  same_weights_from layer_same (layers_ n) (layers_ others) eps.

(** *** Reference definitions *)

(** The number of samples predicted [p] whose actual label is [a]. *)
Fixpoint pair_count (p a : nat) (predicted actual : list nat) : Z :=
  match predicted, actual with
  | p' :: ps, a' :: qs =>
      (if decide (p' = p /\ a' = a) then 1 else 0) + pair_count p a ps qs
  | _, _ => 0
  end.

(** The outputs [predict] gives for the inputs, one after the other. *)
Fixpoint predicted_outputs (inputs : list vec_t) (s : net) : list vec_t :=
  match inputs with
  | [] => []
  | x :: rest =>
      match predict x s with
      | Ret out s' => out :: predicted_outputs rest s'
      | _ => []
      end
  end.

(** The offsets of the mini-batches that cover [in_size] samples. *)
Definition batch_offsets (in_size batch_size : Z) : list Z :=
  (fun k => k * batch_size) <$> seqZ 0 (ceil_div in_size batch_size).

(** What [train_onebatch] does with the sample [j] on the slot [i]. *)
Definition process_sample (input_data_function : Z -> call vec_t)
    (output_data_function : Z -> Z -> call (target float_t)) (j i : Z)
  : call unit :=
  do t <- output_data_function j i;
  do x <- input_data_function j;
  do out <- fprop x i;
  bprop E out t i.

(** The work [train_onebatch] hands the worker [i] of [for_i]:
    [start_index], [end_index] and the loop over the samples between
    them. *)
Definition onebatch_worker (input_data_function : Z -> call vec_t)
    (output_data_function : Z -> Z -> call (target float_t))
    (in_offset in_size data_per_thread i : Z) : call unit :=
  let last_index := to_int (to_size (in_offset + in_size)) in
  do share <- checked_int (i * data_per_thread);
  let start_index := to_int (to_size (in_offset + to_size share)) in
  do stop <- checked_int (start_index + data_per_thread);
  let end_index := Z.min last_index stop in
  for_int start_index end_index
    (fun j =>
       do t <- output_data_function j i;
       do x <- input_data_function j;
       do out <- fprop x i;
       bprop E out t i).

(** The outputs of the forward passes of [test], read off the layers: the
    head's [forward_propagation] of each input on the chain as the inputs
    before it left it. *)
Fixpoint forward_outputs (inputs : list vec_t) (ls : list layer)
  : list vec_t :=
  match inputs with
  | [] => []
  | x :: rest =>
      let r := forward_propagation x 0 ls in
      fst r :: forward_outputs rest (snd r)
  end.

(** The outputs [get_loss(in, t)] compares with the targets: for each
    input the second of its two forward passes. *)
Fixpoint loss_outputs (inputs : list vec_t) (ls : list layer) : list vec_t :=
  match inputs with
  | [] => []
  | x :: rest =>
      let r1 := forward_propagation x 0 ls in
      let r2 := forward_propagation x 0 (snd r1) in
      fst r2 :: loss_outputs rest (snd r2)
  end.

(** [p] is the index of a maximum of [out]: [out[p]] exists and no element
    of [out] is greater. *)
Definition index_of_maximum (out : vec_t) (p : nat) : Prop :=
  exists m, out !! p = Some m /\ forall e, e ∈ out -> fgt e m = false.

End Evaluation.

(** ** image2vec *)

(** [unsigned int] is taken to be 32 bits wide. *)
Definition to_uint (z : Z) : Z := z mod 2 ^ 32.

Section Image2vec.
Context {S A : Type}.

(** [float_t()], the value a new [vec_t] is filled with. *)
Variable zero : A.

(** The image, [rows * cols] values behind [data], and the other
    arguments. *)
Variable data : list A.
Variables rows cols sizepatch step : Z.

(** [(cols-sizepatch)*(rows-sizepatch)/(step*step)], the number of
    patches ([image2vec] below aborts when the divisor is zero). *)
Definition patch_count : Z :=
  to_uint (to_uint (cols - sizepatch) * to_uint (rows - sizepatch))
  / to_uint (step * step).

(** [(cols-sizepatch)/step]. *)
Definition patches_per_row : Z := to_uint (cols - sizepatch) / step.

(** The position [j] (row) and [i] (column) of the patch [count]. *)
Definition patch_row (count : Z) : Z :=
  to_int (to_uint (step * (to_uint count / patches_per_row))).

Definition patch_col (count : Z) : Z :=
  to_int (to_uint (step * (to_uint count mod patches_per_row))).

(** [i+sizepatch < cols && j+sizepatch < rows]. *)
Definition patch_inside (count : Z) : bool :=
  (to_uint (patch_col count + sizepatch) <? cols)
  && (to_uint (patch_row count + sizepatch) <? rows).

(** [x+y*cols] for the element [k] of the patch [count]. *)
Definition pixel_index (count k : Z) : Z :=
  let y := to_uint (k / sizepatch + to_uint (patch_row count)) in
  let x := to_uint (k mod sizepatch + to_uint (patch_col count)) in
  to_uint (x + to_uint (y * cols)).

(** The loop over [k] that fills [res[count]]. *)
Definition fill_patch (count : Z) (patch : list A) : M S (list A) :=
  fold_range 0 (Z.to_nat (to_uint (sizepatch * sizepatch)))
    (fun k patch' =>
       do px <- checked OutOfBounds (at_index data (pixel_index count (Z.of_nat k)));
       if decide (k < length patch')%nat
       then ret (<[k := px]> patch')
       else abort OutOfBounds)
    patch.

Definition image2vec : M S (list (list A)) :=
  do_ (if 0 <? step then ret tt else abort AssertFailed);
  do_ (if to_uint (step * step) =? 0 then abort DivByZero else ret tt);
  fold_i patch_count
    (fun count res =>
       let count := to_int count in
       do_ (if patches_per_row =? 0 then abort DivByZero else ret tt);
       if patch_inside count then
         do patch <- checked OutOfBounds (at_index res count);
         do patch' <- fill_patch count patch;
         ret (<[Z.to_nat count := patch']> res)
       else ret res)
    (replicate (Z.to_nat patch_count)
       (replicate (Z.to_nat (to_uint (sizepatch * sizepatch))) zero)).

(** Reference definitions in unbounded integers: the number of patches,
    the pixel of the image at row [y] and column [x], the patch of
    [sizepatch] by [sizepatch] pixels whose upper left corner is at row [j]
    and column [i], and the list of patches a call is to give. *)
Definition grid_count : Z :=
  (cols - sizepatch) * (rows - sizepatch) / (step * step).

Definition pixel (y x : Z) : A := default zero (at_index data (x + y * cols)).

Definition patch_at (j i : Z) : list A :=
  (fun k : nat =>
     pixel (j + Z.of_nat k / sizepatch) (i + Z.of_nat k mod sizepatch))
    <$> seq 0 (Z.to_nat (sizepatch * sizepatch)).

Definition expected_patch (count : Z) : list A :=
  let per_row := (cols - sizepatch) / step in
  let j := step * (count / per_row) in
  let i := step * (count mod per_row) in
  if (i + sizepatch <? cols) && (j + sizepatch <? rows)
  then patch_at j i
  else replicate (Z.to_nat (sizepatch * sizepatch)) zero.

Definition expected_patches : list (list A) :=
  (fun count : nat => expected_patch (Z.of_nat count))
    <$> seq 0 (Z.to_nat grid_count).

End Image2vec.

(** ** More of the small network *)
Module ToyMore.
Import Toy.

(** Two layers have the same weights when their first weights are within
    [eps] of each other. *)
Definition close (l1 l2 : layer_base Q Toy.shape) (eps : Q) : bool :=
  Qle_bool (Qabs (Toy.first (weight l1) - Toy.first (weight l2))) eps.

(** An image of twelve values: three rows of four columns, or six rows of
    two. *)
Definition image : list Q :=
  [1%Q; 2%Q; 3%Q; 4%Q; 5%Q; 6%Q; 7%Q; 8%Q; 9%Q; 10%Q; 11%Q; 12%Q].

(** A chain none of whose layers has weights. *)
Definition net_weightless : network Q Toy.shape unit :=
  mk_network [Toy.input_layer; Toy.input_layer] tt.

(** A chain of a single layer. *)
Definition net_shallow : network Q Toy.shape unit :=
  mk_network [Toy.input_layer] tt.

(** A chain with several outputs.  A layer's own data are its shape and
    the input it was last given. *)
Record fan : Type := mk_fan {
  fan_in : nat;
  fan_out : nat;
  fan_input : Q
}.

Definition fan_remember (x : Q) (l : layer_base Q fan) : layer_base Q fan :=
  mk_layer (weight l) (bias l) (weight_diff l) (bias_diff l)
    (mk_fan (fan_in (self l)) (fan_out (self l)) x).

(** The second layer has one weight for each output and multiplies its
    input by each of them. *)
Definition fan_forward (x : list Q) (idx : Z) (ls : list (layer_base Q fan))
  : list Q * list (layer_base Q fan) :=
  match ls !! 1%nat with
  | Some l =>
      ((fun w => fmul w (Toy.first x)) <$> weight l,
       <[1%nat := fan_remember (Toy.first x) l]> ls)
  | None => (x, ls)
  end.

Definition fan_backward (dl : list Q) (idx : Z) (ls : list (layer_base Q fan))
  : list (layer_base Q fan) :=
  match ls !! 1%nat with
  | Some l =>
      let g := (fun d => fmul d (fan_input (self l))) <$> dl in
      <[1%nat := mk_layer (weight l) (bias l)
                   (alter (fun dw => zip_with fadd dw g) (Z.to_nat idx)
                      (weight_diff l))
                   (bias_diff l) (self l)]> ls
  | None => ls
  end.

Definition fan_update (o : unit) (worker_size batch_size : Z)
    (ls : list (layer_base Q fan)) : list (layer_base Q fan) * unit :=
  match ls !! 1%nat with
  | Some l =>
      let total :=
        foldr (zip_with fadd) ((fun _ : Q => 0%Q) <$> weight l)
          (take (Z.to_nat worker_size) (weight_diff l)) in
      let step w g := fsub w (fmul (1 # 4) (fdiv g (inject_Z batch_size))) in
      (<[1%nat := mk_layer (zip_with step (weight l) total) (bias l)
                    ((fun dw : list Q => (fun _ : Q => 0%Q) <$> dw) <$> weight_diff l)
                    (bias_diff l) (self l)]> ls, o)
  | None => (ls, o)
  end.

#[export] Instance fan_ops : Collaborators Q fan unit | 10 := {|
  CNN_TASK_SIZE := 8;
  in_size := fan_in;
  out_size := fan_out;
  activation_function := fun _ => Toy.linear;
  forward_propagation := fan_forward;
  back_propagation := fan_backward;
  back_propagation_2nd := fun _ ls => ls;
  init_weight := fun ls => ls;
  set_parallelize := fun _ ls => ls;
  is_exploded := fun ls =>
    existsb (fun l => existsb Toy.too_large (weight l)
                      || existsb Toy.too_large (bias l)) ls;
  update_weights := fan_update;
  divide_hessian := fun _ ls => ls;
  optimizer_reset := fun o => o;
  requires_hessian := fun _ => false;
  max_index := Toy.first_maximum;
  dot := Toy.inner
|}.

Definition fan_head : layer_base Q fan :=
  mk_layer [] [] [[]] [[]] (mk_fan 1 1 0%Q).

Definition fan_layer (ws : list Q) : layer_base Q fan :=
  mk_layer ws [] [(fun _ : Q => 0%Q) <$> ws] [[]] (mk_fan 1 (length ws) 0%Q).

(** The chain whose outputs for the input [x] are [w * x] for each [w] of
    [ws]. *)
Definition net_fan (ws : list Q) : network Q fan unit :=
  mk_network [fan_head; fan_layer ws] tt.

End ToyMore.
(** ** Reasoning about calls *)

Lemma bind_returns {S A B : Type} (m : M S A) (k : A -> M S B) s b s' :
  bind m k s = Ret b s' ->
  exists a s1, m s = Ret a s1 /\ k a s1 = Ret b s'.
Proof.
  unfold bind. destruct (m s) as [a s1| |]; try discriminate.
  intros Hk. exists a, s1. split; [reflexivity | exact Hk].
Qed.

Lemma bind_step {S A B : Type} (m : M S A) (k : A -> M S B) s a s1 :
  m s = Ret a s1 -> bind m k s = k a s1.
Proof. unfold bind. intros ->. reflexivity. Qed.

Lemma checked_returns {S A : Type} (u : abort_kind) (o : option A) s a s' :
  @checked S A u o s = Ret a s' -> o = Some a /\ s' = s.
Proof.
  destruct o as [x|]; simpl; unfold ret, abort; intros H; inversion H; auto.
Qed.

(** Splits a hypothesis [bind m k s = Ret b s'] into its two runs. *)
Lemma bind_assoc {S A B C : Type} (m : M S A) (f : A -> M S B)
    (g : B -> M S C) s :
  bind (bind m f) g s = bind m (fun a => bind (f a) g) s.
Proof. unfold bind. destruct (m s); reflexivity. Qed.

Lemma bind_ret_l {S A B : Type} (a : A) (k : A -> M S B) s :
  bind (ret a) k s = k a s.
Proof. reflexivity. Qed.

Lemma bind_ext {S A B : Type} (m : M S A) (k1 k2 : A -> M S B) s :
  (forall a s1, k1 a s1 = k2 a s1) -> bind m k1 s = bind m k2 s.
Proof. intros H. unfold bind. destruct (m s); auto. Qed.

Lemma bind_cong {S A B : Type} (m1 m2 : M S A) (k1 k2 : A -> M S B) s :
  m1 s = m2 s -> (forall a s1, k1 a s1 = k2 a s1) ->
  bind m1 k1 s = bind m2 k2 s.
Proof. intros Hm H. unfold bind. rewrite Hm. destruct (m2 s); auto. Qed.


(** Brings the two sides of an equation between calls to their common first
    call, and moves on to what follows it. *)
Ltac call_normal :=
  cbv beta zeta;
  repeat first [rewrite bind_assoc | rewrite bind_ret_l]; cbv beta zeta.

Ltac same_call := call_normal; apply bind_ext; intros ? ?.

(** Decides the outcome of the first call still undecided in the goal. *)
Ltac case_call :=
  match goal with
  | |- context [match ?o with Ret _ _ => _ | _ => _ end] =>
      lazymatch o with
      | context [match _ with Ret _ _ => _ | _ => _ end] => fail
      | _ => destruct o
      end
  end.

Tactic Notation "split_call" hyp(H) "as" ident(a) ident(s1) ident(H1) :=
  apply bind_returns in H; destruct H as (a & s1 & H1 & H).

Section Facts.
Context {float_t L Optimizer : Type}.
Context {float_ops : FloatOps float_t}.
Context {collab : Collaborators float_t L Optimizer}.
Variable E : loss_function float_t.

Abbreviation vec_t := (list float_t).
Abbreviation layer := (layer_base float_t L).
Abbreviation net := (network float_t L Optimizer).
Abbreviation call := (M net).

(** *** Reading the head and the tail of the chain *)

Lemma layers_head_some (s : net) l :
  head (layers_ s) = Some l -> layers_head s = Ret l s.
Proof. intros H. unfold layers_head, bind, get, checked. rewrite H. reflexivity. Qed.

Lemma layers_tail_some (s : net) l :
  last (layers_ s) = Some l -> layers_tail s = Ret l s.
Proof. intros H. unfold layers_tail, bind, get, checked. rewrite H. reflexivity. Qed.

Lemma out_dim_some (s : net) l :
  last (layers_ s) = Some l -> out_dim s = Ret (out_size (self l)) s.
Proof.
  intros H. unfold out_dim. rewrite (bind_step _ _ _ _ _ (layers_tail_some s l H)).
  reflexivity.
Qed.

Lemma in_dim_some (s : net) l :
  head (layers_ s) = Some l -> in_dim s = Ret (in_size (self l)) s.
Proof.
  intros H. unfold in_dim. rewrite (bind_step _ _ _ _ _ (layers_head_some s l H)).
  reflexivity.
Qed.

(** *** label2vector *)

(** C7. For a label [t] below the output dimension, [label2vector t]
    returns, without touching the network, a vector whose length is the
    output dimension, that holds the upper bound of the tail activation's
    range at index [t] and the lower bound at every other index. *)
Theorem label2vector_one_hot (s : net) (l : layer) (t : nat) :
  last (layers_ s) = Some l ->
  (t < out_size (self l))%nat ->
  exists v,
    label2vector t s = Ret v s
    /\ length v = out_size (self l)
    /\ v !! t = Some (snd (act_scale (activation_function (self l))))
    /\ forall i, i <> t -> (i < out_size (self l))%nat ->
         v !! i = Some (fst (act_scale (activation_function (self l)))).
Proof.
  intros Hl Ht.
  set (lo := fst (act_scale (activation_function (self l)))).
  set (hi := snd (act_scale (activation_function (self l)))).
  exists (<[t := hi]> (replicate (out_size (self l)) lo)).
  split; [| split; [| split]].
  - unfold label2vector.
    rewrite (bind_step _ _ _ _ _ (out_dim_some s l Hl)).
    unfold target_value_min, target_value_max.
    rewrite (bind_step _ _ s (fst (act_scale (activation_function (self l)))) s).
    2:{ rewrite (bind_step _ _ _ _ _ (layers_tail_some s l Hl)). reflexivity. }
    rewrite (bind_step _ _ s (snd (act_scale (activation_function (self l)))) s).
    2:{ rewrite (bind_step _ _ _ _ _ (layers_tail_some s l Hl)). reflexivity. }
    destruct (decide (t < length (replicate (out_size (self l))
                (fst (act_scale (activation_function (self l))))))%nat)
      as [_|Hn]; [reflexivity |].
    exfalso. apply Hn. rewrite length_replicate. exact Ht.
  - rewrite length_insert, length_replicate. reflexivity.
  - apply list_lookup_insert_eq. rewrite length_replicate. exact Ht.
  - intros i Hi Hlt. rewrite list_lookup_insert_ne by congruence.
    apply lookup_replicate. split; [reflexivity | exact Hlt].
Qed.

(** *** fprop *)

(** C5. On a chain with head [l], [fprop] (and so [predict]) throws the
    dimension mismatch exactly when the input's length is not [l]'s
    [in_size]; otherwise it hands the input to the head layer's
    [forward_propagation] and returns the vector that call returns, the
    chain being left as the call left it. *)
Theorem fprop_dimension_check (s : net) (l : layer) (x : vec_t) (idx : Z) :
  head (layers_ s) = Some l ->
  ((exists s', fprop x idx s = Throw input_dimension_mismatch s')
     <-> length x <> in_size (self l))
  /\ (length x = in_size (self l) ->
      fprop x idx s
      = Ret (fst (forward_propagation x idx (layers_ s)))
            (mk_network (snd (forward_propagation x idx (layers_ s)))
               (optimizer_ s)))
  /\ predict x s = fprop x 0 s.
Proof.
  intros Hl.
  assert (Heq : length x = in_size (self l) ->
      fprop x idx s
      = Ret (fst (forward_propagation x idx (layers_ s)))
            (mk_network (snd (forward_propagation x idx (layers_ s)))
               (optimizer_ s))).
  { intros Hlen. unfold fprop.
    rewrite (bind_step _ _ _ _ _ (in_dim_some s l Hl)).
    destruct (decide (length x = in_size (self l))) as [_|Hn]; [| contradiction].
    reflexivity. }
  split; [| split; [exact Heq | reflexivity]].
  split.
  - intros [s' Hthrow] Hlen. rewrite (Heq Hlen) in Hthrow. discriminate.
  - intros Hne. exists s. unfold fprop.
    rewrite (bind_step _ _ _ _ _ (in_dim_some s l Hl)).
    destruct (decide (length x = in_size (self l))) as [Hlen|_]; [contradiction |].
    reflexivity.
Qed.

(** *** The delta of bprop *)




(** *** test *)

Lemma int_incr_returns {S : Type} (x y : Z) (s s' : S) :
  int_incr x s = Ret y s' -> y = x + 1 /\ s' = s.
Proof.
  unfold int_incr. destruct (x <? INT_MAX); unfold ret, abort; intros H;
    inversion H; auto.
Qed.

(** The sum over a map after one of its entries is set. *)
Lemma sum_insert {A : Type} (g : A -> Z) (m : gmap nat A) (i : nat) (x : A) :
  map_fold (fun _ y acc => g y + acc) 0 (<[i := x]> m)
  = g x + map_fold (fun _ y acc => g y + acc) 0 m - from_option g 0 (m !! i).
Proof.
  destruct (m !! i) as [y|] eqn:Hi; simpl.
  - rewrite <- insert_delete_eq.
    rewrite map_fold_insert_L; [| intros; lia | apply lookup_delete_eq].
    rewrite (map_fold_delete_L _ 0 i y m); [lia | intros; lia | exact Hi].
  - rewrite map_fold_insert_L; [lia | intros; lia | exact Hi].
Qed.

Lemma cm_total_incr (m : gmap nat (gmap nat Z)) (p a : nat) :
  cm_total (cm_set m p a (cm_cell m p a + 1)) = cm_total m + 1.
Proof.
  unfold cm_total, cm_set, cm_cell.
  rewrite (sum_insert row_total).
  unfold row_total at 1. rewrite (sum_insert (fun c => c)).
  fold (row_total (cm_row m p)).
  unfold cm_row. destruct (m !! p) as [row|]; simpl.
  - destruct (row !! a); simpl; lia.
  - rewrite lookup_empty. simpl. unfold row_total. rewrite map_fold_empty. lia.
Qed.

Lemma test_sample_returns inputs t i r r' (s s' : net) :
  test_sample inputs t i r s = Ret r' s' ->
  exists x p a,
    inputs !! i = Some x /\ t !! i = Some a
    /\ fprop_max_index x 0 s = Ret p s'
    /\ num_total r' = num_total r + 1
    /\ cm_total (confusion_matrix r') = cm_total (confusion_matrix r) + 1
    /\ num_success r' = num_success r + (if decide (p = a) then 1 else 0).
Proof.
  unfold test_sample. intros H.
  split_call H as x s1 Hx. apply checked_returns in Hx as [Hx ->].
  split_call H as p s2 Hp.
  split_call H as a s3 Ha. apply checked_returns in Ha as [Ha ->].
  split_call H as ns s4 Hns.
  assert (Hs : ns = num_success r + (if decide (p = a) then 1 else 0)
               /\ s4 = s2).
  { destruct (decide (p = a)).
    - apply int_incr_returns in Hns. exact Hns.
    - unfold ret in Hns. inversion Hns. split; [lia | reflexivity]. }
  destruct Hs as [-> ->]. clear Hns.
  split_call H as nt s5 Hnt. apply int_incr_returns in Hnt as [-> ->].
  split_call H as c s6 Hc. apply int_incr_returns in Hc as [-> ->].
  unfold ret in H. inversion H; subst; clear H. simpl.
  exists x, p, a. repeat split; try assumption.
  apply cm_total_incr.
Qed.

Lemma test_loop_counts inputs t count :
  forall start r r' (s s' : net),
    (start + count = length inputs)%nat ->
    fold_range start count (test_sample inputs t) r s = Ret r' s' ->
    num_total r' = num_total r + Z.of_nat count
    /\ cm_total (confusion_matrix r')
       = cm_total (confusion_matrix r) + Z.of_nat count
    /\ num_success r'
       = num_success r
         + agreements (predicted_labels (drop start inputs) s) (drop start t).
Proof.
  induction count as [|count IH]; intros start r r' s s' Hlen H.
  - simpl in H. unfold ret in H. inversion H; subst; clear H.
    rewrite drop_ge by lia. simpl. lia.
  - simpl in H. split_call H as r1 s1 Hstep.
    apply test_sample_returns in Hstep
      as (x & p & a & Hx & Ha & Hp & Htot & Hcm & Hsucc).
    apply IH in H as (Htot' & Hcm' & Hsucc'); [| lia].
    rewrite (drop_S _ _ _ Hx), (drop_S _ _ _ Ha). simpl.
    rewrite Hp. simpl. repeat split; lia.
Qed.

(** What a forward pass that returns has computed. *)
Lemma fprop_returns (x : vec_t) (idx : Z) (s s' : net) (out : vec_t) :
  fprop x idx s = Ret out s' ->
  out = fst (forward_propagation x idx (layers_ s))
  /\ layers_ s' = snd (forward_propagation x idx (layers_ s)).
Proof.
  unfold fprop. intros Hout.
  split_call Hout as d s2 Hd.
  assert (s2 = s) as ->.
  { unfold in_dim, layers_head in Hd.
    split_call Hd as l s3 Hl. inversion Hd; subst.
    unfold bind, get, checked in Hl.
    destruct (head (layers_ s)); inversion Hl. reflexivity. }
  split_call Hout as u s3 Hu.
  assert (s3 = s) as ->.
  { destruct (decide (length x = d)); inversion Hu. reflexivity. }
  unfold bind, get, set_layers, put, ret in Hout.
  inversion Hout; subst. split; reflexivity.
Qed.

Lemma fprop_max_index_returns (x : vec_t) (idx : Z) (s s' : net) (p : nat) :
  fprop_max_index x idx s = Ret p s' ->
  p = max_index (fst (forward_propagation x idx (layers_ s)))
  /\ layers_ s' = snd (forward_propagation x idx (layers_ s)).
Proof.
  unfold fprop_max_index. intros H.
  split_call H as out s1 Hout. inversion H; subst; clear H.
  apply fprop_returns in Hout as [-> Hls]. split; [reflexivity | exact Hls].
Qed.

Lemma test_loop_forward inputs t count :
  forall start r r' (s s' : net),
    (start + count = length inputs)%nat ->
    fold_range start count (test_sample inputs t) r s = Ret r' s' ->
    predicted_labels (drop start inputs) s
    = max_index <$> forward_outputs (drop start inputs) (layers_ s).
Proof.
  induction count as [|count IH]; intros start r r' s s' Hlen H.
  - rewrite drop_ge by lia. reflexivity.
  - simpl in H. split_call H as r1 s1 Hstep.
    apply test_sample_returns in Hstep
      as (x & p & a & Hx & Ha & Hp & _).
    apply IH in H; [| lia].
    rewrite (drop_S _ _ _ Hx). simpl. rewrite Hp.
    apply fprop_max_index_returns in Hp as [-> Hls].
    rewrite H, Hls. reflexivity.
Qed.

(** C6. The result [test] returns for [n] inputs and [n] labels has its
    confusion-matrix cells summing to [num_total], [num_total] equal to
    [n], and [num_success] equal to the number of samples whose predicted
    label is the actual label; the predicted label of a sample is what
    [max_index] gives for the output of the head's [forward_propagation]
    of that input, and, [max_index] of util.h giving for a non-empty
    vector the index of an element that none is greater than, it is the
    index of a maximum of that output. *)
Theorem test_counts (inputs : list vec_t) (t : list nat) (s s' : net)
    (r : result) :
  (forall v : vec_t, v <> [] -> index_of_maximum v (max_index v)) ->
  length inputs = length t ->
  test inputs t s = Ret r s' ->
  cm_total (confusion_matrix r) = num_total r
  /\ num_total r = Z.of_nat (length inputs)
  /\ num_success r
     = agreements (max_index <$> forward_outputs inputs (layers_ s)) t
  /\ forall i out,
       forward_outputs inputs (layers_ s) !! i = Some out -> out <> [] ->
       index_of_maximum out (max_index out).
Proof.
  intros Hmax _ H. unfold test in H.
  pose proof (test_loop_forward inputs t (length inputs) 0%nat _ _ _ _
                (eq_refl _) H) as Hfw.
  apply test_loop_counts in H as (Htot & Hcm & Hsucc); [| lia].
  simpl in *. unfold cm_total in Hcm at 2. rewrite map_fold_empty in Hcm.
  rewrite !drop_0 in Hsucc. rewrite drop_0 in Hfw. rewrite Hfw in Hsucc.
  repeat split; try lia.
  intros i out _ Hne. apply Hmax. exact Hne.
Qed.

Lemma fprop_max_index_in_bounds (x : vec_t) (idx : Z) (s : net) :
  fprop_max_index x idx s <> Abort OutOfBounds.
Proof.
  unfold fprop_max_index, fprop, in_dim, layers_head, data_mismatch,
    set_layers, bind, get, put, checked, ret, throw, abort.
  destruct (head (layers_ s)); simpl; [| discriminate].
  destruct (decide _); simpl; discriminate.
Qed.

Lemma test_sample_in_bounds inputs t i r (s : net) :
  (i < length inputs)%nat -> (i < length t)%nat ->
  test_sample inputs t i r s <> Abort OutOfBounds.
Proof.
  intros Hi Ht.
  destruct (lookup_lt_is_Some_2 inputs i Hi) as [x Hx].
  destruct (lookup_lt_is_Some_2 t i Ht) as [a Ha].
  unfold test_sample. rewrite Hx, Ha. simpl.
  unfold bind at 1. unfold ret at 1.
  unfold bind at 1.
  pose proof (fprop_max_index_in_bounds x 0 s) as Hf.
  destruct (fprop_max_index x 0 s) as [p s1| |k]; try discriminate;
    [| congruence].
  unfold bind, ret, int_incr, abort.
  repeat (match goal with
          | |- context [decide ?P] => destruct (decide P)
          | |- context [?a <? ?b] => destruct (a <? b)
          end; simpl); discriminate.
Qed.

Lemma test_loop_in_bounds inputs t count :
  forall start r (s : net),
    (start + count <= length inputs)%nat ->
    (length inputs <= length t)%nat ->
    fold_range start count (test_sample inputs t) r s <> Abort OutOfBounds.
Proof.
  induction count as [|count IH]; intros start r s Hlen Ht; simpl.
  - discriminate.
  - unfold bind.
    pose proof (test_sample_in_bounds inputs t start r s) as Hs.
    destruct (test_sample inputs t start r s) as [r1 s1| |k];
      try discriminate.
    + apply IH; lia.
    + intros H. apply Hs; [lia | lia |]. exact H.
Qed.

(** C10. [test] reads [t[i]] for every [i] below the number of inputs and
    never compares the two lengths; when there are at least as many labels
    as inputs, every element it reads exists and the call does not run out
    of bounds. *)
Theorem test_reads_in_bounds (inputs : list vec_t) (t : list nat) (s : net) :
  (length inputs <= length t)%nat ->
  (forall i, (i < length inputs)%nat ->
     is_Some (inputs !! i) /\ is_Some (t !! i))
  /\ test inputs t s <> Abort OutOfBounds.
Proof.
  intros Hlen. split.
  - intros i Hi. split; apply lookup_lt_is_Some_2; lia.
  - unfold test. apply test_loop_in_bounds; lia.
Qed.

(** *** The two paths of train_once *)

(** C1, as amended. For the mini-batch of one sample at offset 0, the
    direct path of [train_once] and the batched path [train_onebatch] run
    with one task or more do the same: the target and the input of index 0
    are fetched, the input is propagated forward and the target backward
    on slot 0, and the weights are updated with [update_weights(1, 1)]. *)
Theorem direct_path_agrees_at_offset_0
    (input_data_function : Z -> call vec_t)
    (output_data_function : Z -> Z -> call (target float_t))
    (num_tasks : Z) (s : net) :
  1 <= num_tasks ->
  train_once E input_data_function output_data_function 0 1 num_tasks s
  = train_onebatch E input_data_function output_data_function 0 1
      num_tasks s.
Proof.
  intros Htasks. unfold train_once, train_onebatch.
  change (1 =? 1) with true. cbv iota.
  replace (Z.min (to_int 1) num_tasks) with 1
    by (change (to_int 1) with 1; lia).
  cbv -[fprop bprop layers_update_weights].
  repeat case_call; reflexivity.
Qed.

(** *** The loops of train *)

Lemma below_ceil_div (n b k : Z) :
  1 <= b -> (k * b < n <-> k < ceil_div n b).
Proof.
  intros Hb. unfold ceil_div. split; intros H.
  - assert (k + 1 <= (n + b - 1) / b); [| lia].
    apply Z.div_le_lower_bound; nia.
  - destruct (Z_lt_le_dec (k * b) n) as [Hlt|Hge]; [exact Hlt | exfalso].
    assert ((n + b - 1) / b < k + 1); [| lia].
    apply Z.div_lt_upper_bound; nia.
Qed.

Lemma ceil_div_nonneg (n b : Z) : 1 <= b -> 0 <= n -> 0 <= ceil_div n b.
Proof. intros Hb Hn. unfold ceil_div. apply Z.div_pos; lia. Qed.

Section TrainFacts.
Variable input_data_function : Z -> call vec_t.
Variable output_data_function : Z -> Z -> call (target float_t).
Variables on_batch_enumerate on_epoch_enumerate : call unit.
Variables in_size batch_size n_threads : Z.

Abbreviation batches :=
  (train_batches E input_data_function output_data_function
     on_batch_enumerate in_size batch_size n_threads).
Abbreviation epochs :=
  (train_epochs E input_data_function output_data_function
     on_batch_enumerate on_epoch_enumerate in_size batch_size n_threads).
Lemma batches_record fuel :
  forall i s b log s',
    batches fuel i s = Some (Ret (b, log) s') ->
    if b then undetected log else cut_short log s'.
Proof.
  induction fuel as [|fuel IH]; intros i s b log s' H; simpl in H;
    [discriminate |].
  destruct (i <? in_size).
  - simpl in H.
    match type of H with
    | context [match ?o with Ret _ _ => _ | _ => _ end] =>
        destruct o as [u s1| |]; try discriminate
    end.
    destruct (explosion_detected (i, s1)) eqn:Hd.
    + inversion H; subst; clear H.
      exists [], (i, s'). repeat split; [constructor | exact Hd].
    + destruct (batches fuel (to_size (i + batch_size)) s1)
        as [[[b0 log0] s2| |]|] eqn:Hr; simpl in H; try discriminate.
      inversion H; subst; clear H. simpl.
      apply IH in Hr. destruct b.
      * constructor; assumption.
      * destruct Hr as (l0 & st & -> & Hl0 & Hst & ->).
        exists ((i, s1) :: l0), st. repeat split; try assumption.
        constructor; assumption.
  - inversion H; subst; clear H. constructor.
Qed.

(** A loop that is still running after [fuel0] iterations has run at
    least [fuel0] mini-batches when it ends. *)
Lemma batches_unfinished_is_longer fuel0 :
  forall fuel i s log s',
    batches fuel0 i s = None ->
    batches fuel i s = Some (Ret (true, log) s') ->
    (fuel0 <= length log)%nat.
Proof.
  induction fuel0 as [|fuel0 IH]; intros fuel i s log s' Hnone H;
    [lia |].
  destruct fuel as [|fuel]; simpl in H; [discriminate |].
  simpl in Hnone.
  destruct (i <? in_size); [| discriminate].
  simpl in H, Hnone.
  match type of H with
  | context [match ?o with Ret _ _ => _ | _ => _ end] =>
      destruct o as [u s1| |]; try discriminate
  end.
  destruct (explosion_detected (i, s1)); [discriminate |].
  destruct (batches fuel (to_size (i + batch_size)) s1)
    as [[[b0 log0] s2| |]|] eqn:Hr; simpl in H; try discriminate.
  inversion H; subst; clear H.
  destruct (batches fuel0 (to_size (i + batch_size)) s1)
    as [[r0 s3| |]|] eqn:Hr0; simpl in Hnone; try discriminate.
  simpl. apply le_n_S. eapply IH; eassumption.
Qed.

Lemma train_unfinished_is_longer fuel0 fuel reset_weights s log s' :
  train E input_data_function output_data_function on_batch_enumerate
    on_epoch_enumerate in_size batch_size n_threads fuel0 1 reset_weights s
  = None ->
  train E input_data_function output_data_function on_batch_enumerate
    on_epoch_enumerate in_size batch_size n_threads fuel 1 reset_weights s
  = Some (Ret (true, log) s') ->
  (fuel0 <= length log)%nat.
Proof.
  unfold train. intros Hnone H.
  destruct (train_prologue batch_size reset_weights s) as [u s0| |];
    simpl in H, Hnone; try discriminate.
  change (Z.to_nat 1) with 1%nat in *. simpl in H, Hnone.
  match type of H with
  | context [if ?c then calc_hessian _ _ _ _ else _] =>
      destruct ((if c then calc_hessian E input_data_function in_size 500
                 else ret tt) s0) as [u1 s1| |]; simpl in H, Hnone;
        try discriminate
  end.
  destruct (batches fuel 0 s1) as [[[b0 log0] s2| |]|] eqn:Hb;
    simpl in H; try discriminate.
  destruct b0; [| discriminate].
  destruct (on_epoch_enumerate s2) as [u2 s3| |]; simpl in H;
    try discriminate.
  inversion H; subst; clear H. rewrite length_app. simpl.
  destruct (batches fuel0 0 s1) as [[[b1 log1] s4| |]|] eqn:Hb0;
    simpl in Hnone; try discriminate.
  - destruct b1; simpl in Hnone; [| discriminate].
    destruct (on_epoch_enumerate s4); discriminate.
  - pose proof (batches_unfinished_is_longer _ _ _ _ _ _ Hb0 Hb). lia.
Qed.

Hypothesis batch_size_positive : 1 <= batch_size.
Hypothesis in_size_nonneg : 0 <= in_size.
Hypothesis index_in_range :
  ceil_div in_size batch_size * batch_size < SIZE_MODULUS.

Lemma next_index (k : Z) :
  0 <= k -> k < ceil_div in_size batch_size ->
  to_size (k * batch_size + batch_size) = (k + 1) * batch_size.
Proof.
  intros Hk Hlt. unfold to_size. rewrite Z.mod_small by nia. lia.
Qed.

Lemma batches_count fuel :
  forall k s log s',
    0 <= k <= ceil_div in_size batch_size ->
    batches fuel (k * batch_size) s = Some (Ret (true, log) s') ->
    Z.of_nat (length log) = ceil_div in_size batch_size - k.
Proof.
  induction fuel as [|fuel IH]; intros k s log s' Hk H; simpl in H;
    [discriminate |].
  destruct (k * batch_size <? in_size) eqn:Hlt.
  - apply Z.ltb_lt, below_ceil_div in Hlt; [| assumption].
    simpl in H.
    match type of H with
    | context [match ?o with Ret _ _ => _ | _ => _ end] =>
        destruct o as [u s1| |]; try discriminate
    end.
    destruct (explosion_detected (k * batch_size, s1)); [discriminate |].
    rewrite next_index in H by lia.
    destruct (batches fuel ((k + 1) * batch_size) s1)
      as [[[b0 log0] s2| |]|] eqn:Hr; simpl in H; try discriminate.
    inversion H; subst; clear H.
    apply IH in Hr; [| lia]. simpl length. lia.
  - inversion H; subst; clear H. simpl.
    apply Z.ltb_ge in Hlt.
    assert (~ k < ceil_div in_size batch_size); [| lia].
    intros Hc. apply below_ceil_div in Hc; [lia | assumption].
Qed.

Lemma batches_finish fuel :
  forall k s,
    0 <= k <= ceil_div in_size batch_size ->
    ceil_div in_size batch_size - k < Z.of_nat fuel ->
    batches fuel (k * batch_size) s <> None.
Proof.
  induction fuel as [|fuel IH]; intros k s Hk Hfuel; simpl; [lia |].
  destruct (k * batch_size <? in_size) eqn:Hlt; [| discriminate].
  apply Z.ltb_lt, below_ceil_div in Hlt; [| assumption].
  simpl.
  match goal with
  | |- context [match ?o with Ret _ _ => _ | _ => _ end] =>
      destruct o as [u s1| |]; try discriminate
  end.
  destruct (explosion_detected (k * batch_size, s1)); [discriminate |].
  rewrite next_index by lia.
  specialize (IH (k + 1) s1).
  destruct (batches fuel ((k + 1) * batch_size) s1) as [[r s2| |]|];
    simpl; try discriminate.
  apply IH; lia.
Qed.

Lemma epochs_record fuel n :
  forall s b log s',
    epochs fuel n s = Some (Ret (b, log) s') ->
    if b then undetected log else cut_short log s'.
Proof.
  induction n as [|n IH]; intros s b log s' H; simpl in H.
  - inversion H; subst; clear H. constructor.
  - match type of H with
    | context [if ?c then calc_hessian _ _ _ _ else _] =>
        destruct ((if c then calc_hessian E input_data_function in_size 500
                   else ret tt) s) as [u s0| |]; simpl in H;
          try discriminate
    end.
    destruct (batches fuel 0 s0) as [[[b0 log0] s1| |]|] eqn:Hb;
      simpl in H; try discriminate.
    apply batches_record in Hb.
    destruct b0.
    + destruct (on_epoch_enumerate s1) as [u' s2| |]; simpl in H;
        try discriminate.
      destruct (epochs fuel n s2) as [[[b1 log1] s3| |]|] eqn:He;
        simpl in H; try discriminate.
      inversion H; subst; clear H. apply IH in He. destruct b.
      * apply Forall_app. split; assumption.
      * destruct He as (l0 & st & -> & Hl0 & Hst & ->).
        exists (log0 ++ l0), st. rewrite app_assoc.
        repeat split; try assumption.
        apply Forall_app. split; assumption.
    + inversion H; subst; clear H. exact Hb.
Qed.

Lemma train_record fuel epoch reset_weights :
  forall s b log s',
    train E input_data_function output_data_function on_batch_enumerate
      on_epoch_enumerate in_size batch_size n_threads fuel epoch
      reset_weights s
    = Some (Ret (b, log) s') ->
    if b then undetected log else cut_short log s'.
Proof.
  intros s b log s' H. unfold train in H.
  destruct (train_prologue batch_size reset_weights s) as [u s0| |];
    simpl in H; try discriminate.
  apply epochs_record in H. exact H.
Qed.

Lemma epochs_count fuel n :
  forall s log s',
    epochs fuel n s = Some (Ret (true, log) s') ->
    Z.of_nat (length log) = Z.of_nat n * ceil_div in_size batch_size.
Proof.
  pose proof (ceil_div_nonneg in_size batch_size batch_size_positive
                in_size_nonneg) as Hc.
  induction n as [|n IH]; intros s log s' H; simpl in H.
  - inversion H; subst; clear H. simpl. lia.
  - match type of H with
    | context [if ?c then calc_hessian _ _ _ _ else _] =>
        destruct ((if c then calc_hessian E input_data_function in_size 500
                   else ret tt) s) as [u s0| |]; simpl in H;
          try discriminate
    end.
    destruct (batches fuel 0 s0) as [[[b0 log0] s1| |]|] eqn:Hb;
      simpl in H; try discriminate.
    destruct b0; [| discriminate].
    apply (batches_count fuel 0) in Hb; [| lia].
    destruct (on_epoch_enumerate s1) as [u' s2| |]; simpl in H;
      try discriminate.
    destruct (epochs fuel n s2) as [[[b1 log1] s3| |]|] eqn:He;
      simpl in H; try discriminate.
    inversion H; subst; clear H. apply IH in He.
    rewrite length_app. lia.
Qed.

Lemma epochs_finish fuel n :
  ceil_div in_size batch_size < Z.of_nat fuel ->
  forall s, epochs fuel n s <> None.
Proof.
  pose proof (ceil_div_nonneg in_size batch_size batch_size_positive
                in_size_nonneg) as Hc.
  intros Hfuel. induction n as [|n IH]; intros s; simpl; [discriminate |].
  match goal with
  | |- context [if ?c then calc_hessian _ _ _ _ else _] =>
      destruct ((if c then calc_hessian E input_data_function in_size 500
                 else ret tt) s) as [u s0| |]; simpl; try discriminate
  end.
  assert (Hb : batches fuel 0 s0 <> None)
    by (apply (batches_finish fuel 0); lia).
  destruct (batches fuel 0 s0) as [[[b0 log0] s1| |]|];
    simpl; try discriminate; [| exact Hb].
  destruct b0; simpl; [| discriminate].
  destruct (on_epoch_enumerate s1) as [u' s2| |]; simpl; try discriminate.
  specialize (IH s2).
  destruct (epochs fuel n s2) as [[r s3| |]|]; simpl; try discriminate.
  exact IH.
Qed.

Abbreviation training :=
  (train E input_data_function output_data_function on_batch_enumerate
     on_epoch_enumerate in_size batch_size n_threads).

(** C9, as amended. Let [batch_size >= 1] and [epoch >= 0], and let the
    loop index stay within [size_t]: the number of mini-batches times
    [batch_size] is below 2^64.  Then the mini-batch loop of every epoch
    finishes within [ceil(in_size / batch_size) + 1] iterations, so that
    [train] terminates; and when it is not cut short (it returns [true]),
    it has run exactly [epoch * ceil(in_size / batch_size)]
    mini-batches. *)
Theorem train_terminates_with_count (fuel : nat) (epoch : Z)
    (reset_weights : bool) (s : net) :
  0 <= epoch ->
  ceil_div in_size batch_size < Z.of_nat fuel ->
  training fuel epoch reset_weights s <> None
  /\ forall log s',
       training fuel epoch reset_weights s = Some (Ret (true, log) s') ->
       Z.of_nat (length log) = epoch * ceil_div in_size batch_size.
Proof.
  intros Hepoch Hfuel. unfold train.
  destruct (train_prologue batch_size reset_weights s)
    as [u s0| |]; simpl.
  - split.
    + apply epochs_finish. exact Hfuel.
    + intros log s' H. apply epochs_count in H.
      rewrite Z2Nat.id in H by lia. exact H.
  - split; [discriminate | intros; discriminate].
  - split; [discriminate | intros; discriminate].
Qed.

(** C3, as amended. Under the same conditions on the sizes, [train]
    terminates, and whenever it returns: if it returns [false], the last
    mini-batch it ran is one whose offset is a multiple of 100 and after
    which [is_exploded] held, no earlier check had fired, and the
    network is returned as that mini-batch left it (no further
    mini-batch, no further epoch); if it returns [true], no check fired
    at any mini-batch and all [epoch * ceil(in_size / batch_size)]
    mini-batches were run. *)
Theorem train_explosion_check (fuel : nat) (epoch : Z)
    (reset_weights : bool) (s : net) :
  0 <= epoch ->
  ceil_div in_size batch_size < Z.of_nat fuel ->
  training fuel epoch reset_weights s <> None
  /\ forall b log s',
       training fuel epoch reset_weights s = Some (Ret (b, log) s') ->
       (b = false ->
        exists log0 i,
          log = log0 ++ [(i, s')] /\ undetected log0
          /\ i mod 100 = 0 /\ is_exploded (layers_ s') = true)
       /\ (b = true ->
           undetected log
           /\ Z.of_nat (length log)
              = epoch * ceil_div in_size batch_size).
Proof.
  intros Hepoch Hfuel. unfold train.
  destruct (train_prologue batch_size reset_weights s)
    as [u s0| |]; simpl;
    [| split; [discriminate | intros; discriminate] ..].
  split; [apply epochs_finish; exact Hfuel |].
  intros b log s' H. split; intros ->.
  - apply epochs_record in H.
    destruct H as (log0 & [i si] & -> & Hlog0 & Hdet & ->).
    exists log0, i. simpl.
    unfold explosion_detected in Hdet. simpl in Hdet.
    apply andb_true_iff in Hdet as [Hi Hx]. apply Z.eqb_eq in Hi.
    repeat split; assumption.
  - split.
    + apply epochs_record in H. exact H.
    + apply epochs_count in H. rewrite Z2Nat.id in H by lia. exact H.
Qed.

End TrainFacts.

(** *** The gradient verifier *)

Lemma calc_delta_gradient_gap (inputs v : list vec_t) (data_size : Z)
    (k : nat) (sel : param_sel) (check_index : Z) (s : net) :
  calc_delta E inputs v data_size k sel check_index s
  = gradient_gap E delta inputs v data_size k sel check_index s.
Proof.
  unfold calc_delta, gradient_gap, zero_accumulator, numerical_gradient,
    loss_with_param, total_loss, analytic_gradient.
  repeat same_call. call_normal. reflexivity.
Qed.



(** *** Calls that keep the parameters *)

Lemma keeps_ret {A : Type} (a : A) : keeps_params (@ret net A a).
Proof. intros s b s' H. unfold ret in H. inversion H. reflexivity. Qed.

Lemma keeps_get : keeps_params (@get net).
Proof. intros s b s' H. unfold get in H. inversion H. reflexivity. Qed.

Lemma keeps_abort {A : Type} (u : abort_kind) : keeps_params (@abort net A u).
Proof. intros s b s' H. discriminate. Qed.

Lemma keeps_throw {A : Type} (e : nn_error) : keeps_params (@throw net A e).
Proof. intros s b s' H. discriminate. Qed.

Lemma keeps_checked {A : Type} (u : abort_kind) (o : option A) :
  keeps_params (@checked net A u o).
Proof. destruct o; [apply keeps_ret | apply keeps_abort]. Qed.

Lemma keeps_bind {A B : Type} (m : call A) (k : A -> call B) :
  keeps_params m -> (forall a, keeps_params (k a)) -> keeps_params (bind m k).
Proof.
  intros Hm Hk s b s' H. split_call H as a s1 Hrun.
  apply Hm in Hrun. apply Hk in H. congruence.
Qed.

Lemma keeps_fold_range {A : Type} (body : nat -> A -> call A) count :
  (forall i acc, keeps_params (body i acc)) ->
  forall start acc, keeps_params (fold_range start count body acc).
Proof.
  intros Hb. induction count as [|count IH]; intros start acc; simpl.
  - apply keeps_ret.
  - apply keeps_bind; [apply Hb | intros; apply IH].
Qed.

Lemma keeps_for_range (body : nat -> call unit) count :
  (forall i, keeps_params (body i)) ->
  forall start, keeps_params (for_range start count body).
Proof.
  intros Hb. induction count as [|count IH]; intros start; simpl.
  - apply keeps_ret.
  - apply keeps_bind; [apply Hb | intros; apply IH].
Qed.

Lemma keeps_all_range (check : nat -> call bool) count :
  (forall i, keeps_params (check i)) ->
  forall start, keeps_params (all_range start count check).
Proof.
  intros Hb. induction count as [|count IH]; intros start; simpl.
  - apply keeps_ret.
  - apply keeps_bind; [apply Hb |].
    intros [|]; [apply IH | apply keeps_ret].
Qed.

Lemma keeps_set_layers (ls : list layer) (s : net) :
  params_of ls = params_of (layers_ s) ->
  forall u s', set_layers ls s = Ret u s' ->
    params_of (layers_ s') = params_of (layers_ s).
Proof.
  intros H u s' Hrun. unfold set_layers, bind, get, put in Hrun.
  inversion Hrun; subst. exact H.
Qed.

End Facts.

(** Proves that a call built from the calls above keeps the parameters. *)
Ltac keeps :=
  repeat first
    [ match goal with H : _ |- _ => solve [apply H] end
    | apply keeps_ret | apply keeps_get | apply keeps_abort
    | apply keeps_throw | apply keeps_checked
    | apply keeps_bind; [| intros ?]
    | apply keeps_fold_range; intros ? ?
    | apply keeps_for_range; intros ?
    | apply keeps_all_range; intros ?
    | match goal with
      | |- keeps_params (if ?c then _ else _) => destruct c
      | |- keeps_params (match ?o with _ => _ end) => destruct o
      end ].

Section GradientCheckFacts.
Context {float_t L Optimizer : Type}.
Context {float_ops : FloatOps float_t}.
Context {collab : Collaborators float_t L Optimizer}.
Variable E : loss_function float_t.

Abbreviation vec_t := (list float_t).
Abbreviation layer := (layer_base float_t L).
Abbreviation net := (network float_t L Optimizer).
Abbreviation call := (M net).

(** The contract of the layers: propagation in either direction leaves the
    weight and bias vectors alone ([update_weights] is where they
    change). *)
Hypothesis forward_keeps :
  forall (x : vec_t) (idx : Z) (ls : list layer),
    params_of (snd (forward_propagation x idx ls)) = params_of ls.
Hypothesis backward_keeps :
  forall (d : vec_t) (idx : Z) (ls : list layer),
    params_of (back_propagation d idx ls) = params_of ls.

Lemma keeps_layers_head : keeps_params (@layers_head float_t L Optimizer).
Proof. unfold layers_head. keeps. Qed.

Lemma keeps_layers_tail : keeps_params (@layers_tail float_t L Optimizer).
Proof. unfold layers_tail. keeps. Qed.

Lemma keeps_fprop (x : vec_t) (idx : Z) : keeps_params (fprop x idx).
Proof.
  unfold fprop, in_dim, data_mismatch.
  apply keeps_bind; [apply keeps_bind; [apply keeps_layers_head | intros; keeps] |].
  intros d. apply keeps_bind; [keeps |]. intros _.
  intros s a s' H. unfold bind, get in H.
  destruct (set_layers (snd (forward_propagation x idx (layers_ s))) s)
    as [u s1| |] eqn:Hset; try discriminate.
  unfold ret in H. inversion H; subst.
  eapply keeps_set_layers; [| exact Hset]. apply forward_keeps.
Qed.

Lemma keeps_get_loss (out t : vec_t) :
  keeps_params (get_loss E out t : call float_t).
Proof. unfold get_loss. keeps. Qed.

Lemma keeps_label2vector (t : nat) : keeps_params (label2vector t).
Proof.
  unfold label2vector, out_dim, target_value_min, target_value_max.
  pose proof keeps_layers_tail. keeps.
Qed.

Lemma keeps_bprop_vec (out t : vec_t) (idx : Z) :
  keeps_params (bprop_vec E out t idx).
Proof.
  unfold bprop_vec, out_dim, delta_canonical, delta_general.
  pose proof keeps_layers_tail as Ht.
  apply keeps_bind; [keeps |]. intros n.
  apply keeps_bind; [keeps |]. intros l.
  apply keeps_bind; [keeps |]. intros dl.
  intros s a s' H. unfold tail_back_propagation, bind, get in H.
  eapply keeps_set_layers; [| exact H]. apply backward_keeps.
Qed.

Lemma params_of_insert (ls : list layer) (k : nat) (l : layer) :
  params_of (<[k := l]> ls) = <[k := (weight l, bias l)]> (params_of ls).
Proof. unfold params_of. rewrite list_fmap_insert. reflexivity. Qed.

Lemma params_of_lookup (ls : list layer) (k : nat) (l : layer) :
  ls !! k = Some l -> params_of ls !! k = Some (weight l, bias l).
Proof. intros H. unfold params_of. rewrite list_lookup_fmap, H. reflexivity. Qed.

Lemma poke_poke sel i (x y : float_t) (p : vec_t * vec_t) :
  poke sel i x (poke sel i y p) = poke sel i x p.
Proof.
  destruct sel, p; unfold poke; simpl; rewrite list_insert_insert_eq;
    reflexivity.
Qed.

Lemma poke_same sel i (x : float_t) (p : vec_t * vec_t) :
  pick sel p !! i = Some x -> poke sel i x p = p.
Proof.
  destruct sel, p; unfold poke, pick; simpl; intros H;
    rewrite list_insert_id by exact H; reflexivity.
Qed.

Lemma layer_at_returns (k : nat) (s s' : net) (l : layer) :
  layer_at k s = Ret l s' -> s' = s /\ layers_ s !! k = Some l.
Proof.
  unfold layer_at, bind, get. intros H.
  apply checked_returns in H as [H ->]. auto.
Qed.

Lemma read_param_params k sel check_index (s s' : net) (x : float_t) :
  read_param k sel check_index s = Ret x s' ->
  s' = s
  /\ exists pk, params_of (layers_ s) !! k = Some pk
               /\ pick sel pk !! Z.to_nat check_index = Some x.
Proof.
  unfold read_param. intros H. split_call H as l s1 Hl.
  apply layer_at_returns in Hl as [-> Hl].
  apply checked_returns in H as [H ->]. split; [reflexivity |].
  exists (weight l, bias l). split; [apply params_of_lookup; exact Hl |].
  unfold at_index in H. destruct (check_index <? 0); [discriminate |].
  destruct sel; exact H.
Qed.

Lemma write_param_params k sel check_index (x : float_t) (s s' : net) u :
  write_param k sel check_index x s = Ret u s' ->
  exists pk,
    params_of (layers_ s) !! k = Some pk
    /\ params_of (layers_ s')
       = <[k := poke sel (Z.to_nat check_index) x pk]> (params_of (layers_ s)).
Proof.
  unfold write_param. intros H. split_call H as l s1 Hl.
  apply layer_at_returns in Hl as [-> Hl].
  destruct (at_index (param sel l) check_index); [| discriminate].
  exists (weight l, bias l). split; [apply params_of_lookup; exact Hl |].
  unfold set_layer_at, set_layers, bind, get, put in H.
  inversion H; subst; clear H. simpl.
  rewrite params_of_insert. destruct sel; reflexivity.
Qed.

Lemma keeps_zero_accumulator k sel :
  keeps_params (zero_accumulator k sel : call unit).
Proof.
  intros s u s' H. unfold zero_accumulator in H.
  split_call H as l s1 Hl. apply layer_at_returns in Hl as [-> Hl].
  split_call H as dw s2 Hdw. apply checked_returns in Hdw as [_ ->].
  unfold set_layer_at, set_layers, bind, get, put in H.
  inversion H; subst; clear H. simpl.
  rewrite params_of_insert.
  apply list_insert_id.
  rewrite (params_of_lookup _ _ _ Hl). destruct sel; reflexivity.
Qed.

Lemma keeps_total_loss inputs v data_size :
  keeps_params (total_loss E inputs v data_size).
Proof.
  unfold total_loss. pose proof keeps_fprop. pose proof keeps_get_loss.
  keeps.
Qed.

(** The parameter moved to [+epsilon] and [-epsilon] is put back. *)
Lemma keeps_numerical_gradient epsilon inputs v data_size k sel check_index :
  keeps_params
    (numerical_gradient E epsilon inputs v data_size k sel check_index).
Proof.
  intros s a s' H. unfold numerical_gradient, loss_with_param in H.
  split_call H as w0 s1 Hr.
  apply read_param_params in Hr as [-> (pk & Hpk & Hw0)].
  split_call H as fp s2 Hfp. split_call Hfp as u1 s1 Hw1.
  apply write_param_params in Hw1 as (pk1 & Hpk1 & Hp1).
  apply keeps_total_loss in Hfp.
  split_call H as fm s4 Hfm. split_call Hfm as u2 s3 Hw2.
  apply write_param_params in Hw2 as (pk2 & Hpk2 & Hp2).
  apply keeps_total_loss in Hfm.
  split_call H as u3 s5 Hw3.
  apply write_param_params in Hw3 as (pk3 & Hpk3 & Hp3).
  unfold ret in H. inversion H; subst a s'; clear H.
  assert (Hk : (k < length (params_of (layers_ s)))%nat)
    by (eapply lookup_lt_Some; exact Hpk).
  rewrite Hpk in Hpk1. inversion Hpk1; subst pk1; clear Hpk1.
  rewrite Hfp, Hp1, list_lookup_insert_eq in Hpk2 by exact Hk.
  inversion Hpk2; subst pk2; clear Hpk2.
  rewrite Hfm, Hp2, Hfp, Hp1, list_insert_insert_eq, list_lookup_insert_eq
    in Hpk3 by exact Hk.
  inversion Hpk3; subst pk3; clear Hpk3.
  rewrite Hp3, Hfm, Hp2, Hfp, Hp1, !list_insert_insert_eq, !poke_poke.
  rewrite (poke_same _ _ _ _ Hw0). apply list_insert_id. exact Hpk.
Qed.

Lemma keeps_analytic_gradient inputs v data_size k sel check_index :
  keeps_params (analytic_gradient E inputs v data_size k sel check_index).
Proof.
  unfold analytic_gradient, layer_at.
  pose proof keeps_fprop. pose proof keeps_bprop_vec. keeps.
Qed.

Lemma keeps_calc_delta inputs v data_size k sel check_index :
  keeps_params (calc_delta E inputs v data_size k sel check_index).
Proof.
  intros s a s' H. rewrite calc_delta_gradient_gap in H. revert s a s' H.
  unfold gradient_gap.
  pose proof keeps_zero_accumulator. pose proof keeps_numerical_gradient.
  pose proof keeps_analytic_gradient. keeps.
Qed.

Lemma keeps_check_layers uniform_idx
    (measure : nat -> param_sel -> Z -> call float_t) eps mode :
  (forall k sel i, keeps_params (measure k sel i)) ->
  keeps_params (check_layers uniform_idx measure eps mode).
Proof.
  intros Hm. unfold check_layers, layer_at. keeps.
Qed.

(** C8. The layers being such that propagation in either direction leaves
    the weight and bias vectors alone, every weight vector and every bias
    vector of every layer holds, when [gradient_check] returns [true] or
    [false], the values it held on entry: each parameter that was moved is
    put back, and the analytic pass writes the accumulators only. *)
Theorem gradient_check_keeps_params
    (uniform_idx : nat -> param_sel -> nat -> Z) (inputs : list vec_t)
    (t : list nat) (data_size : Z) (eps : float_t) (mode : grad_check_mode)
    (s s' : net) (verdict : bool) :
  gradient_check E uniform_idx inputs t data_size eps mode s
  = Ret verdict s' ->
  (weight <$> layers_ s') = (weight <$> layers_ s)
  /\ (bias <$> layers_ s') = (bias <$> layers_ s).
Proof.
  intros H.
  assert (Hk : keeps_params
                 (gradient_check E uniform_idx inputs t data_size eps mode)).
  { unfold gradient_check.
    apply keeps_bind; [keeps |]. intros s0.
    apply keeps_bind; [keeps |]. intros _.
    apply keeps_bind.
    - unfold label2vector_all. pose proof keeps_label2vector. keeps.
    - intros v. apply keeps_check_layers. intros k sel i.
      pose proof keeps_calc_delta. keeps. }
  apply Hk in H. unfold params_of in H.
  split.
  - apply (f_equal (fmap fst)) in H.
    rewrite <- !list_fmap_compose in H. exact H.
  - apply (f_equal (fmap snd)) in H.
    rewrite <- !list_fmap_compose in H. exact H.
Qed.

End GradientCheckFacts.

(** ** The statements on the small network *)

Import Toy.

Lemma fprop_dimension_check_witness :
  ((exists s', fprop [1%Q; 2%Q] 0 (net0 1) = Throw input_dimension_mismatch s')
     <-> length [1%Q; 2%Q] <> 1%nat)
  /\ (length [1%Q; 2%Q] = 1%nat ->
      fprop [1%Q; 2%Q] 0 (net0 1)
      = Ret (fst (forward [1%Q; 2%Q] 0 (layers_ (net0 1))))
            (mk_network (snd (forward [1%Q; 2%Q] 0 (layers_ (net0 1)))) tt))
  /\ predict [1%Q; 2%Q] (net0 1) = fprop [1%Q; 2%Q] 0 (net0 1).
Proof.
  refine (fprop_dimension_check (net0 1) input_layer [1%Q; 2%Q] 0 _).
  reflexivity.
Defined.

Lemma test_reads_in_bounds_witness :
  (forall i, (i < 2)%nat ->
     is_Some ([[1%Q]; [2%Q]] !! i) /\ is_Some ([0%nat; 1%nat; 0%nat] !! i))
  /\ test [[1%Q]; [2%Q]] [0%nat; 1%nat; 0%nat] (net0 1) <> Abort OutOfBounds.
Proof.
  refine (test_reads_in_bounds [[1%Q]; [2%Q]] [0%nat; 1%nat; 0%nat] (net0 1)
            _).
  simpl. lia.
Defined.

(** With fewer labels than inputs [test] reads past the labels. *)
Example test_short_labels :
  test [[1%Q]; [2%Q]] [0%nat] (net0 1) = Abort OutOfBounds.
Proof. vm_compute. reflexivity. Qed.

Lemma direct_path_agrees_at_offset_0_witness :
  train_once squared_error (list_input samples) (list_target targets) 0 1 1
    (net0 1)
  = train_onebatch squared_error (list_input samples) (list_target targets)
      0 1 1 (net0 1).
Proof.
  refine (direct_path_agrees_at_offset_0 squared_error (list_input samples)
            (list_target targets) 1 (net0 1) _).
  lia.
Defined.

(** C1 refuted as stated: over two samples (here two equal ones, input 1 and
    target 0), [train] with [batch_size = 1] updates the weight twice, to
    7/16, and with [batch_size = 2] and one task once, to 1/2. *)
Lemma batch_size_1_and_N_differ :
  final_params (training 2 1 3 1 1) = Some [([], []); ([7 # 16], [])]
  /\ final_params (training 2 2 3 1 1) = Some [([], []); ([1 # 2], [])]
  /\ final_params (training 2 1 3 1 1) <> final_params (training 2 2 3 1 1).
Proof.
  split; [vm_compute; reflexivity |].
  split; [vm_compute; reflexivity |].
  vm_compute. discriminate.
Qed.

(** At an offset other than 0 the direct path of [train_once] still feeds the
    input of index 0 forward, while the batched path feeds the input at the
    offset: for the second of the two samples the weight 1 becomes 1/2 on
    the direct path and -7/2 on the batched path. *)
Example direct_path_at_offset_1 :
  final_params
    (Some (train_once squared_error (list_input samples) (list_target targets)
             1 1 1 (net0 1)))
  = Some [([], []); ([1 # 2], [])]
  /\ final_params
       (Some (train_onebatch squared_error (list_input samples)
                (list_target targets) 1 1 1 (net0 1)))
     = Some [([], []); ([-7 # 2], [])].
Proof. split; vm_compute; reflexivity. Qed.

Lemma train_terminates_with_count_witness :
  training 2 1 3 1 1 <> None
  /\ forall log s',
       training 2 1 3 1 1 = Some (Ret (true, log) s') ->
       Z.of_nat (length log) = 1 * ceil_div 2 1.
Proof.
  refine (train_terminates_with_count squared_error (constant_input 1)
            (constant_target 0) no_callback no_callback 2 1 1 _ _ _
            3 1 false (net0 1) _ _).
  - lia.
  - lia.
  - vm_compute. reflexivity.
  - lia.
  - vm_compute. reflexivity.
Defined.

(** C9 refuted as stated: with 2^64 - 1 samples and [batch_size = 2^63 + 1]
    the index of the loop wraps around to 2 after the second mini-batch, so
    that the loop is still running after three iterations, and no run that
    ends has made the [1 * ceil(in_size / batch_size) = 2] mini-batches the
    claim gives. *)
Lemma train_index_wraps_around :
  1 <= 2 ^ 63 + 1
  /\ ceil_div (2 ^ 64 - 1) (2 ^ 63 + 1) = 2
  /\ training (2 ^ 64 - 1) (2 ^ 63 + 1) 3 1 1 = None
  /\ forall fuel log s',
       training (2 ^ 64 - 1) (2 ^ 63 + 1) fuel 1 1
       = Some (Ret (true, log) s') ->
       Z.of_nat (length log) <> 1 * ceil_div (2 ^ 64 - 1) (2 ^ 63 + 1).
Proof.
  assert (Hrun : training (2 ^ 64 - 1) (2 ^ 63 + 1) 3 1 1 = None)
    by (vm_compute; reflexivity).
  split; [lia |]. split; [vm_compute; reflexivity |]. split; [exact Hrun |].
  intros fuel log s' H.
  pose proof (train_unfinished_is_longer _ _ _ _ _ _ _ _ _ _ _ _ _ _ Hrun H)
    as Hlen.
  change (ceil_div (2 ^ 64 - 1) (2 ^ 63 + 1)) with 2. lia.
Qed.

Lemma train_explosion_check_witness :
  training 2 1 3 2 2000 <> None
  /\ forall b log s',
       training 2 1 3 2 2000 = Some (Ret (b, log) s') ->
       (b = false ->
        exists log0 i,
          log = log0 ++ [(i, s')] /\ undetected log0
          /\ i mod 100 = 0 /\ exploded (layers_ s') = true)
       /\ (b = true ->
           undetected log /\ Z.of_nat (length log) = 2 * ceil_div 2 1).
Proof.
  refine (train_explosion_check squared_error (constant_input 1)
            (constant_target 0) no_callback no_callback 2 1 1 _ _ _
            3 2 false (net0 2000) _ _).
  - lia.
  - lia.
  - vm_compute. reflexivity.
  - lia.
  - vm_compute. reflexivity.
Defined.

(** The weight 2000 is beyond what the small chain takes for finite: the
    first mini-batch, at offset 0, is a check point, and [train] returns
    [false] after it, of the two epochs of two mini-batches asked for. *)
Example train_stops_at_explosion :
  exists s', training 2 1 3 2 2000 = Some (Ret (false, [(0, s')]) s').
Proof. eexists. vm_compute. reflexivity. Qed.

(** With [batch_size = 0] the first mini-batch is empty and [train_onebatch]
    divides by its zero number of threads. *)
Example train_batch_size_zero : training 2 0 3 1 1 = Some (Abort DivByZero).
Proof. vm_compute. reflexivity. Qed.

(** C3 refuted as stated: with 2^64 - 1 samples and [batch_size = 2^64 - 2]
    no explosion is detected at the three mini-batches (offsets 0, 2^64 - 2
    and, the index having wrapped around, 2^64 - 4) that [train] runs before
    three iterations are over, and it goes on; no run that returns [true]
    has made the [1 * ceil(in_size / batch_size) = 2] mini-batches of the
    claim. *)
Lemma train_runs_past_all_minibatches :
  ceil_div (2 ^ 64 - 1) (2 ^ 64 - 2) = 2
  /\ training (2 ^ 64 - 1) (2 ^ 64 - 2) 3 1 1 = None
  /\ forall fuel log s',
       training (2 ^ 64 - 1) (2 ^ 64 - 2) fuel 1 1
       = Some (Ret (true, log) s') ->
       undetected log
       /\ Z.of_nat (length log) <> 1 * ceil_div (2 ^ 64 - 1) (2 ^ 64 - 2).
Proof.
  assert (Hrun : training (2 ^ 64 - 1) (2 ^ 64 - 2) 3 1 1 = None)
    by (vm_compute; reflexivity).
  split; [vm_compute; reflexivity |]. split; [exact Hrun |].
  intros fuel log s' H. split.
  - apply train_record in H. exact H.
  - pose proof (train_unfinished_is_longer _ _ _ _ _ _ _ _ _ _ _ _ _ _ Hrun H)
      as Hlen.
    change (ceil_div (2 ^ 64 - 1) (2 ^ 64 - 2)) with 2. lia.
Qed.


Lemma toy_forward_keeps (x : list Q) (idx : Z) (ls : list (layer_base Q shape)) :
  params_of (snd (forward x idx ls)) = params_of ls.
Proof.
  unfold forward. destruct (ls !! 1%nat) as [l|] eqn:Hl; simpl; [| reflexivity].
  rewrite params_of_insert. apply list_insert_id.
  rewrite (params_of_lookup _ _ _ Hl). reflexivity.
Qed.

Lemma toy_backward_keeps (d : list Q) (idx : Z) (ls : list (layer_base Q shape)) :
  params_of (backward d idx ls) = params_of ls.
Proof.
  unfold backward. destruct (ls !! 1%nat) as [l|] eqn:Hl; simpl; [| reflexivity].
  rewrite params_of_insert. apply list_insert_id.
  rewrite (params_of_lookup _ _ _ Hl). reflexivity.
Qed.

Lemma gradient_check_keeps_params_witness :
  exists verdict s',
    gradient_check squared_error draw_first [[1%Q]] [0%nat] 1 1%Q
      GRAD_CHECK_ALL (net0 3) = Ret verdict s'
    /\ (weight <$> layers_ s') = (weight <$> layers_ (net0 3))
    /\ (bias <$> layers_ s') = (bias <$> layers_ (net0 3)).
Proof.
  eexists _, _. split; [vm_compute; reflexivity |].
  refine (gradient_check_keeps_params squared_error toy_forward_keeps
            toy_backward_keeps draw_first [[1%Q]] [0%nat] 1 1%Q GRAD_CHECK_ALL
            (net0 3) _ _ _).
  vm_compute. reflexivity.
Defined.

(** ** The rest of the class *)

#[local] Set Warnings "-clear-no-such-hyp".

Section EvaluationFacts.
Context {float_t L Optimizer : Type}.
Context {float_ops : FloatOps float_t}.
Context {collab : Collaborators float_t L Optimizer}.
Variable E : loss_function float_t.

Abbreviation vec_t := (list float_t).
Abbreviation layer := (layer_base float_t L).
Abbreviation net := (network float_t L Optimizer).
Abbreviation call := (M net).

(** *** check_training_data *)

(** The sample [k] passes the checks made on it. *)
Abbreviation sample_ok check_t dim_in dim_out inputs t k :=
  (exists (x : vec_t) ti,
     inputs !! k = Some x /\ t !! k = Some ti
     /\ length x = dim_in /\ check_t k ti dim_out = None).

Lemma check_samples_ok {T : Type}
    (check_t : nat -> T -> nat -> option data_error) (dim_in dim_out : nat)
    (inputs : list vec_t) (t : list T) count :
  forall i,
    check_samples check_t dim_in dim_out inputs t i count = data_ok
    <-> forall k, (i <= k < i + count)%nat ->
          sample_ok check_t dim_in dim_out inputs t k.
Proof.
  induction count as [|count IH]; intros i; simpl.
  - split; [intros _ k Hk; lia | reflexivity].
  - split.
    + intros H k Hk.
      destruct (inputs !! i) as [x|] eqn:Hx; [| discriminate].
      destruct (t !! i) as [ti|] eqn:Hti; [| discriminate].
      destruct (decide (length x = dim_in)) as [Hlen|]; [| discriminate].
      destruct (check_t i ti dim_out) eqn:Hc; [discriminate |].
      destruct (decide (k = i)) as [->|Hne].
      * exists x, ti. auto.
      * pose proof (proj1 (IH _) H) as H'. apply H'. lia.
    + intros H.
      destruct (H i ltac:(lia)) as (x & ti & -> & -> & Hlen & Hc).
      destruct (decide (length x = dim_in)); [| contradiction].
      rewrite Hc. apply IH. intros k Hk. apply H. lia.
Qed.

(** The loop stops at the first sample that fails a check. *)
Lemma check_samples_rejected {T : Type}
    (check_t : nat -> T -> nat -> option data_error) (dim_in dim_out : nat)
    (inputs : list vec_t) (t : list T) count e :
  forall i,
    check_samples check_t dim_in dim_out inputs t i count = data_rejected e ->
    exists k x ti,
      (i <= k < i + count)%nat
      /\ inputs !! k = Some x /\ t !! k = Some ti
      /\ (forall k', (i <= k' < k)%nat ->
            sample_ok check_t dim_in dim_out inputs t k')
      /\ ((length x <> dim_in /\ e = input_dimension k (length x))
          \/ (length x = dim_in /\ check_t k ti dim_out = Some e)).
Proof.
  induction count as [|count IH]; intros i H; simpl in H; [discriminate |].
  destruct (inputs !! i) as [x|] eqn:Hx; [| discriminate].
  destruct (t !! i) as [ti|] eqn:Hti; [| discriminate].
  destruct (decide (length x = dim_in)) as [Hlen|Hlen].
  - destruct (check_t i ti dim_out) as [e'|] eqn:Hc.
    + inversion H; subst e'. exists i, x, ti.
      repeat split; try assumption; try lia. right. auto.
    + apply IH in H as (k & x' & ti' & Hk & Hx' & Hti' & Hbefore & Hwhy).
      exists k, x', ti'. repeat split; try assumption; try lia.
      intros k' Hk'. destruct (decide (k' = i)) as [->|Hne].
      * exists x, ti. auto.
      * apply Hbefore. lia.
  - inversion H; subst e. exists i, x, ti.
    repeat split; try assumption; try lia. left. auto.
Qed.

(** X1. On a chain with head [h] and tail [tl], [check_training_data]
    accepts inputs with class labels exactly when there are as many labels
    as inputs, every input has [h]'s [in_size] elements and every label is
    below [tl]'s [out_size]. *)
Theorem check_training_data_labels (inputs : list vec_t) (t : list nat)
    (s : net) (h tl : layer) :
  head (layers_ s) = Some h ->
  last (layers_ s) = Some tl ->
  check_training_data check_t_label inputs t s = data_ok
  <-> length inputs = length t
      /\ Forall (fun x => length x = in_size (self h)) inputs
      /\ Forall (fun l => (l < out_size (self tl))%nat) t.
Proof.
  intros Hh Htl. unfold check_training_data. rewrite Hh, Htl.
  destruct (decide (length inputs = length t)) as [Hlen|Hlen].
  - rewrite check_samples_ok. split.
    + intros H. split; [exact Hlen |]. split.
      * apply Forall_lookup. intros k x Hx.
        destruct (H k) as (x' & ti & Hx' & _ & Hd & _).
        { apply lookup_lt_Some in Hx. lia. }
        congruence.
      * apply Forall_lookup. intros k l Hl.
        destruct (H k) as (x' & ti & _ & Hti & _ & Hc).
        { apply lookup_lt_Some in Hl. lia. }
        unfold check_t_label in Hc.
        destruct (decide (out_size (self tl) <= ti)%nat); [discriminate |].
        assert (ti = l) by congruence. lia.
    + intros (_ & Hin & Hout) k Hk.
      destruct (lookup_lt_is_Some_2 inputs k ltac:(lia)) as [x Hx].
      destruct (lookup_lt_is_Some_2 t k ltac:(lia)) as [l Hl].
      exists x, l. repeat split; try assumption.
      * exact (proj1 (Forall_lookup _ _) Hin k x Hx).
      * unfold check_t_label.
        pose proof (proj1 (Forall_lookup _ _) Hout k l Hl) as Hlt. simpl in Hlt.
        destruct (decide (out_size (self tl) <= l)%nat); [lia | reflexivity].
  - split; [discriminate | intros [H _]; contradiction].
Qed.

(** X2. The same for dense targets: [check_training_data] accepts exactly
    when the counts agree, every input has [in_size] elements and every
    target vector has [out_size] elements. *)
Theorem check_training_data_vectors (inputs t : list vec_t) (s : net)
    (h tl : layer) :
  head (layers_ s) = Some h ->
  last (layers_ s) = Some tl ->
  check_training_data check_t_vec inputs t s = data_ok
  <-> length inputs = length t
      /\ Forall (fun x => length x = in_size (self h)) inputs
      /\ Forall (fun v => length v = out_size (self tl)) t.
Proof.
  intros Hh Htl. unfold check_training_data. rewrite Hh, Htl.
  destruct (decide (length inputs = length t)) as [Hlen|Hlen].
  - rewrite check_samples_ok. split.
    + intros H. split; [exact Hlen |]. split.
      * apply Forall_lookup. intros k x Hx.
        destruct (H k) as (x' & ti & Hx' & _ & Hd & _).
        { apply lookup_lt_Some in Hx. lia. }
        congruence.
      * apply Forall_lookup. intros k v Hv.
        destruct (H k) as (x' & ti & _ & Hti & _ & Hc).
        { apply lookup_lt_Some in Hv. lia. }
        unfold check_t_vec in Hc.
        destruct (decide (length ti = out_size (self tl))); [| discriminate].
        congruence.
    + intros (_ & Hin & Hout) k Hk.
      destruct (lookup_lt_is_Some_2 inputs k ltac:(lia)) as [x Hx].
      destruct (lookup_lt_is_Some_2 t k ltac:(lia)) as [v Hv].
      exists x, v. repeat split; try assumption.
      * exact (proj1 (Forall_lookup _ _) Hin k x Hx).
      * unfold check_t_vec.
        pose proof (proj1 (Forall_lookup _ _) Hout k v Hv) as Hd. simpl in Hd.
        destruct (decide (length v = out_size (self tl)));
          [reflexivity | contradiction].
  - split; [discriminate | intros [H _]; contradiction].
Qed.

(** X3. When [check_training_data] rejects labelled data whose counts agree,
    the error names the first sample that is not well-dimensioned: every
    sample before it passes both checks, and the sample itself has an input
    of the wrong length (reported with that length) or, its input being
    right, a label that is not below the output dimension. *)
Theorem check_training_data_first_error (inputs : list vec_t) (t : list nat)
    (s : net) (h tl : layer) (e : data_error) :
  head (layers_ s) = Some h ->
  last (layers_ s) = Some tl ->
  length inputs = length t ->
  check_training_data check_t_label inputs t s = data_rejected e ->
  exists k x l,
    inputs !! k = Some x /\ t !! k = Some l
    /\ (forall k' x' l', (k' < k)%nat ->
          inputs !! k' = Some x' -> t !! k' = Some l' ->
          length x' = in_size (self h) /\ (l' < out_size (self tl))%nat)
    /\ ((length x <> in_size (self h) /\ e = input_dimension k (length x))
        \/ (length x = in_size (self h) /\ (out_size (self tl) <= l)%nat
            /\ e = label_out_of_range k l)).
Proof.
  intros Hh Htl Hlen H. unfold check_training_data in H.
  rewrite Hh, Htl in H.
  destruct (decide (length inputs = length t)); [| contradiction].
  apply check_samples_rejected
    in H as (k & x & l & Hk & Hx & Hl & Hbefore & Hwhy).
  exists k, x, l. repeat split; try assumption.
  - destruct (Hbefore k' ltac:(lia)) as (x'' & l'' & Hx'' & Hl'' & Hd & Hc).
    congruence.
  - destruct (Hbefore k' ltac:(lia)) as (x'' & l'' & Hx'' & Hl'' & Hd & Hc).
    unfold check_t_label in Hc.
    destruct (decide (out_size (self tl) <= l'')%nat); [discriminate |].
    assert (l'' = l') by congruence. lia.
  - destruct Hwhy as [Hbad | [Hgood Hc]]; [left; exact Hbad | right].
    unfold check_t_label in Hc.
    destruct (decide (out_size (self tl) <= l)%nat); [| discriminate].
    inversion Hc. auto.
Qed.

(** X4. Data that [check_training_data] accepted can be propagated: on the
    network as it was checked, [fprop] of every input passes the dimension
    check and returns, and [label2vector] of every label returns the
    expanded target. *)
Theorem checked_data_propagates (inputs : list vec_t) (t : list nat)
    (s : net) (i : nat) (x : vec_t) (l : nat) (idx : Z) :
  check_training_data check_t_label inputs t s = data_ok ->
  inputs !! i = Some x ->
  t !! i = Some l ->
  (exists out s', fprop x idx s = Ret out s')
  /\ (exists v, label2vector l s = Ret v s).
Proof.
  intros H Hx Hl.
  assert (Hne : exists h tl,
             head (layers_ s) = Some h /\ last (layers_ s) = Some tl).
  { unfold check_training_data in H.
    destruct (head (layers_ s)) as [h|]; [| discriminate].
    destruct (last (layers_ s)) as [tl|]; [| discriminate]. eauto. }
  destruct Hne as (h & tl & Hh & Htl).
  unfold check_training_data in H. rewrite Hh, Htl in H.
  destruct (decide (length inputs = length t)); [| discriminate].
  destruct (proj1 (check_samples_ok _ _ _ _ _ _ _) H i)
    as (x' & l' & Hx' & Hl' & Hd & Hc).
  { apply lookup_lt_Some in Hx. lia. }
  assert (x' = x) by congruence. assert (l' = l) by congruence. subst x' l'.
  unfold check_t_label in Hc.
  destruct (decide (out_size (self tl) <= l)%nat) as [|Hlt]; [discriminate |].
  split.
  - unfold fprop. rewrite (bind_step _ _ _ _ _ (in_dim_some s h Hh)).
    destruct (decide (length x = in_size (self h))); [| contradiction].
    eexists _, _. reflexivity.
  - unfold label2vector.
    rewrite (bind_step _ _ _ _ _ (out_dim_some s tl Htl)).
    unfold target_value_min, target_value_max.
    rewrite (bind_step _ _ s (fst (act_scale (activation_function (self tl)))) s).
    2:{ rewrite (bind_step _ _ _ _ _ (layers_tail_some s tl Htl)). reflexivity. }
    rewrite (bind_step _ _ s (snd (act_scale (activation_function (self tl)))) s).
    2:{ rewrite (bind_step _ _ _ _ _ (layers_tail_some s tl Htl)). reflexivity. }
    rewrite length_replicate.
    destruct (decide (l < out_size (self tl))%nat); [| lia].
    eexists. reflexivity.
Qed.

End EvaluationFacts.

(** *** The confusion matrix *)

Lemma cm_cell_set (m : gmap nat (gmap nat Z)) (p a p' a' : nat) (c : Z) :
  cm_cell (cm_set m p a c) p' a'
  = if decide (p' = p /\ a' = a) then c else cm_cell m p' a'.
Proof.
  unfold cm_cell, cm_set, cm_row.
  destruct (decide (p' = p)) as [->|Hp].
  - rewrite lookup_insert_eq. simpl.
    destruct (decide (a' = a)) as [->|Ha].
    + rewrite lookup_insert_eq. simpl.
      destruct (decide (p = p /\ a = a)) as [|Hn]; [reflexivity |].
      exfalso. apply Hn. auto.
    + rewrite lookup_insert_ne by congruence.
      destruct (decide (p = p /\ a' = a)) as [[_ Hn]|]; [contradiction |].
      reflexivity.
  - rewrite lookup_insert_ne by congruence.
    destruct (decide (p' = p /\ a' = a)) as [[Hn _]|]; [contradiction |].
    reflexivity.
Qed.

(** The keys a map's fold collects. *)
Lemma collect_keys {V : Type} (row : gmap nat V) (init : gset nat) :
  map_fold (fun a (_ : V) acc => {[a]} ∪ acc) init row = dom row ∪ init.
Proof.
  apply (map_fold_weak_ind
           (fun (r : gset nat) (m : gmap nat V) => r = dom m ∪ init)).
  - rewrite dom_empty_L. set_solver.
  - intros i x m r Hi ->. rewrite dom_insert_L. set_solver.
Qed.

Lemma labels_spec (ns nt : Z) (m : gmap nat (gmap nat Z)) (x : nat) :
  x ∈ labels (mk_result ns nt m)
  <-> x ∈ dom m \/ exists p row, m !! p = Some row /\ x ∈ dom row.
Proof.
  unfold labels. simpl.
  apply (map_fold_weak_ind
           (fun (r : gset nat) (m : gmap nat (gmap nat Z)) =>
              x ∈ r <-> x ∈ dom m \/ exists p row, m !! p = Some row /\ x ∈ dom row)).
  - rewrite dom_empty_L. split; [set_solver |].
    intros [H | (p & row & H & _)]; [set_solver |].
    rewrite lookup_empty in H. discriminate.
  - intros i row m' r Hi IH. rewrite collect_keys, dom_insert_L.
    rewrite !elem_of_union, elem_of_singleton, IH. split.
    + intros [H | [H | [H | (p & row' & Hp & Hx)]]].
      * right. exists i, row. rewrite lookup_insert_eq. auto.
      * left. auto.
      * left. auto.
      * right. exists p, row'. split; [| exact Hx].
        rewrite lookup_insert_ne; [exact Hp |]. intros ->. congruence.
    + intros [[H | H] | (p & row' & Hp & Hx)].
      * right. left. exact H.
      * right. right. left. exact H.
      * destruct (decide (p = i)) as [->|Hne].
        -- rewrite lookup_insert_eq in Hp. inversion Hp; subst. left. exact Hx.
        -- rewrite lookup_insert_ne in Hp by congruence.
           right. right. right. exists p, row'. auto.
Qed.

(** Counting one more pair adds its two labels. *)
Lemma labels_cm_set (ns nt ns' nt' : Z) (m : gmap nat (gmap nat Z))
    (p a : nat) (c : Z) :
  labels (mk_result ns' nt' (cm_set m p a c))
  = {[p]} ∪ {[a]} ∪ labels (mk_result ns nt m).
Proof.
  apply set_eq. intros x.
  rewrite !elem_of_union, !elem_of_singleton, !labels_spec.
  unfold cm_set, cm_row. rewrite dom_insert_L, elem_of_union, elem_of_singleton.
  split.
  - intros [[H | H] | (q & row & Hq & Hx)].
    + left. left. exact H.
    + right. left. exact H.
    + destruct (decide (q = p)) as [->|Hne].
      * rewrite lookup_insert_eq in Hq. inversion Hq; subst; clear Hq.
        rewrite dom_insert_L, elem_of_union, elem_of_singleton in Hx.
        destruct Hx as [Hx | Hx]; [left; right; exact Hx |].
        destruct (m !! p) as [row|] eqn:Hp; simpl in Hx.
        -- right. right. exists p, row. auto.
        -- rewrite dom_empty_L in Hx. set_solver.
      * rewrite lookup_insert_ne in Hq by congruence.
        right. right. exists q, row. auto.
  - intros [[H | H] | [H | (q & row & Hq & Hx)]].
    + left. left. exact H.
    + right. exists p, (<[a := c]> (default ∅ (m !! p))).
      rewrite lookup_insert_eq. split; [reflexivity |].
      rewrite dom_insert_L. set_solver.
    + left. right. exact H.
    + destruct (decide (q = p)) as [->|Hne].
      * right. exists p, (<[a := c]> (default ∅ (m !! p))).
        rewrite lookup_insert_eq. split; [reflexivity |].
        rewrite Hq. simpl. rewrite dom_insert_L. set_solver.
      * right. exists q, row. rewrite lookup_insert_ne by congruence. auto.
Qed.

Section MatrixFacts.
Context {float_t L Optimizer : Type}.
Context {float_ops : FloatOps float_t}.
Context {collab : Collaborators float_t L Optimizer}.

Abbreviation vec_t := (list float_t).
Abbreviation net := (network float_t L Optimizer).

Lemma test_sample_matrix (inputs : list vec_t) t i r r' (s s' : net) :
  test_sample inputs t i r s = Ret r' s' ->
  exists x p a,
    inputs !! i = Some x /\ t !! i = Some a
    /\ fprop_max_index x 0 s = Ret p s'
    /\ confusion_matrix r'
       = cm_set (confusion_matrix r) p a
           (cm_cell (confusion_matrix r) p a + 1).
Proof.
  unfold test_sample. intros H.
  split_call H as x s1 Hx. apply checked_returns in Hx as [Hx ->].
  split_call H as p s2 Hp.
  split_call H as a s3 Ha. apply checked_returns in Ha as [Ha ->].
  split_call H as ns s4 Hns.
  assert (Hs : s4 = s2).
  { destruct (decide (p = a)).
    - apply int_incr_returns in Hns. apply Hns.
    - unfold ret in Hns. inversion Hns. reflexivity. }
  subst s4. clear Hns.
  split_call H as nt s5 Hnt. apply int_incr_returns in Hnt as [-> ->].
  split_call H as c s6 Hc. apply int_incr_returns in Hc as [-> ->].
  unfold ret in H. inversion H; subst; clear H. simpl.
  exists x, p, a. auto.
Qed.

Lemma test_loop_matrix (inputs : list vec_t) t count :
  forall start r r' (s s' : net),
    (start + count = length inputs)%nat ->
    fold_range start count (test_sample inputs t) r s = Ret r' s' ->
    (forall p a,
       cm_cell (confusion_matrix r') p a
       = cm_cell (confusion_matrix r) p a
         + pair_count p a (predicted_labels (drop start inputs) s)
             (drop start t))
    /\ labels r'
       = list_to_set (predicted_labels (drop start inputs) s)
         ∪ list_to_set (take count (drop start t))
         ∪ labels r.
Proof.
  induction count as [|count IH]; intros start r r' s s' Hlen H.
  - simpl in H. unfold ret in H. inversion H; subst; clear H.
    rewrite drop_ge by lia. simpl. split; [intros; lia | set_solver].
  - simpl in H. split_call H as r1 s1 Hstep.
    apply test_sample_matrix in Hstep as (x & p & a & Hx & Ha & Hp & Hcm).
    apply IH in H as [Hcells Hlabels]; [| lia].
    rewrite (drop_S _ _ _ Hx), (drop_S _ _ _ Ha). simpl. rewrite Hp. simpl.
    split.
    + intros p' a'. rewrite Hcells, Hcm, cm_cell_set.
      destruct (decide (p' = p /\ a' = a)) as [[-> ->]|Hne].
      * destruct (decide (p = p /\ a = a)) as [|Hn]; [lia |].
        exfalso. apply Hn. auto.
      * destruct (decide (p = p' /\ a = a')) as [[-> ->]|]; [| lia].
        exfalso. apply Hne. auto.
    + rewrite Hlabels. destruct r1 as [ns1 nt1 m1]. destruct r as [ns nt m].
      simpl in Hcm. subst m1.
      rewrite (labels_cm_set ns nt). set_solver.
Qed.

(** X5. In the result [test] returns, the cell of the confusion matrix for
    the predicted label [p] and the actual label [a] holds the number of
    samples that were predicted [p] and are labelled [a] (a cell that does
    not exist counting as zero). *)
Theorem test_confusion_matrix (inputs : list vec_t) (t : list nat)
    (s s' : net) (r : result) (p a : nat) :
  test inputs t s = Ret r s' ->
  cm_cell (confusion_matrix r) p a
  = pair_count p a (predicted_labels inputs s) t.
Proof.
  intros H. unfold test in H.
  apply test_loop_matrix in H as [Hcells _]; [| lia].
  rewrite Hcells, !drop_0. unfold cm_cell, cm_row. simpl.
  rewrite lookup_empty. simpl. rewrite lookup_empty. simpl. lia.
Qed.

(** X6. [labels()] of the result [test] returns is the set of the labels
    that were predicted for a sample or are the actual label of a sample. *)
Theorem test_labels (inputs : list vec_t) (t : list nat) (s s' : net)
    (r : result) :
  test inputs t s = Ret r s' ->
  labels r
  = list_to_set (predicted_labels inputs s)
    ∪ list_to_set (take (length inputs) t).
Proof.
  intros H. unfold test in H.
  apply test_loop_matrix in H as [_ Hlabels]; [| lia].
  rewrite Hlabels, !drop_0.
  assert (Hempty : labels (mk_result 0 0 ∅) = ∅).
  { unfold labels. simpl. apply map_fold_empty. }
  rewrite Hempty. set_solver.
Qed.

End MatrixFacts.

(** *** Evaluation *)

Lemma at_index_of_nat {A : Type} (v : list A) (k : nat) :
  at_index v (0 + Z.of_nat k) = v !! k.
Proof.
  unfold at_index. destruct (0 + Z.of_nat k <? 0) eqn:Hneg.
  - apply Z.ltb_lt in Hneg. lia.
  - f_equal. lia.
Qed.

Section EvaluationFrame.
Context {float_t L Optimizer : Type}.
Context {float_ops : FloatOps float_t}.
Context {collab : Collaborators float_t L Optimizer}.
Variable E : loss_function float_t.

Abbreviation vec_t := (list float_t).
Abbreviation layer := (layer_base float_t L).
Abbreviation net := (network float_t L Optimizer).
Abbreviation call := (M net).

Lemma test_outputs_loop (inputs : list vec_t) count :
  forall start acc res (s s' : net),
    (start + count = length inputs)%nat ->
    length acc = length inputs ->
    fold_range start count
      (fun k test_result =>
         do x <- checked OutOfBounds (at_index inputs (0 + Z.of_nat k));
         do out <- predict x;
         match at_index test_result (0 + Z.of_nat k) with
         | Some _ => ret (<[Z.to_nat (0 + Z.of_nat k) := out]> test_result)
         | None => abort OutOfBounds
         end) acc s = Ret res s' ->
    res = take start acc ++ predicted_outputs (drop start inputs) s
    /\ length res = length inputs.
Proof.
  induction count as [|count IH]; intros start acc res s s' Hlen Hacc H.
  - simpl in H. unfold ret in H. inversion H; subst; clear H.
    rewrite drop_ge by lia. simpl. rewrite app_nil_r.
    rewrite take_ge by lia. auto.
  - simpl in H. split_call H as acc1 s1 Hstep.
    split_call Hstep as x s2 Hx. apply checked_returns in Hx as [Hx ->].
    rewrite at_index_of_nat in Hx.
    split_call Hstep as out s3 Hout.
    rewrite at_index_of_nat in Hstep.
    destruct (acc !! start) as [old|] eqn:Hold; [| discriminate].
    unfold ret in Hstep. inversion Hstep; subst; clear Hstep.
    replace (Z.to_nat (0 + Z.of_nat start)) with start in H by lia.
    apply IH in H as [H Hres]; [| lia | rewrite length_insert; exact Hacc].
    split; [| exact Hres].
    rewrite H, (drop_S _ _ _ Hx). simpl. rewrite Hout.
    rewrite (take_S_r (<[start := out]> acc) start out).
    + rewrite take_insert_ge by lia. rewrite <- app_assoc. reflexivity.
    + apply list_lookup_insert_eq. apply lookup_lt_Some in Hold. exact Hold.
Qed.

(** X7. The list [test(in)] returns holds, in order, the output [predict]
    gives for each input on the network as the inputs before it left it; it
    has as many elements as there are inputs. *)
Theorem test_outputs_are_predictions (inputs res : list vec_t) (s s' : net) :
  test_outputs inputs s = Ret res s' ->
  res = predicted_outputs inputs s /\ length res = length inputs.
Proof.
  intros H. unfold test_outputs, fold_i in H.
  replace (Z.to_nat (Z.of_nat (length inputs) - 0)) with (length inputs)
    in H by lia.
  apply test_outputs_loop in H as [H Hlen];
    [| lia | apply length_replicate].
  rewrite drop_0 in H. simpl in H. auto.
Qed.

Lemma get_loss_returns {S : Type} (out t : vec_t) (s : S) :
  length out = length t ->
  exists e, get_loss E out t s = Ret e s.
Proof.
  intros Hlen. unfold get_loss. rewrite decide_True by exact Hlen.
  assert (Hgen : forall count start acc,
             (start + count <= length out)%nat ->
             exists e,
               fold_range start count
                 (fun i e =>
                    do o <- checked OutOfBounds (out !! i);
                    do ti <- checked OutOfBounds (t !! i);
                    ret (fadd e (E_f E o ti))) acc s
               = Ret e s).
  { induction count as [|count IH]; intros start acc Hc; cbn [fold_range];
      [eexists; reflexivity |].
    destruct (lookup_lt_is_Some_2 out start ltac:(lia)) as [o Ho].
    destruct (lookup_lt_is_Some_2 t start ltac:(lia)) as [ti Hti].
    rewrite Ho, Hti. unfold checked. cbv beta iota. call_normal.
    apply IH. lia. }
  apply Hgen. lia.
Qed.

Lemma predict_aborts (x : vec_t) (s : net) (k : abort_kind) :
  predict x s = Abort k -> k = NullDeref.
Proof.
  unfold predict, fprop, in_dim, layers_head, data_mismatch,
    set_layers, bind, get, put, checked, ret, throw, abort.
  destruct (head (layers_ s)); cbn; [| congruence].
  match goal with |- context [decide ?P] => destruct (decide P) end;
    cbn; discriminate.
Qed.

(** X8. [get_loss(in, t)] reads [t[i]] for every input without comparing
    the two sizes, and the per-sample [get_loss] reads [t[i][j]] for every
    position [j] of the output.  When there are at least as many targets as
    inputs and every target has as many elements as the output it is
    compared with (the output of the second of the two forward passes
    made for its input), the assertion of the per-sample [get_loss] holds
    at every sample and no vector is read out of bounds. *)
Theorem get_loss_all_in_bounds (inputs t : list vec_t) (s : net) :
  (length inputs <= length t)%nat ->
  (forall i out ti,
     loss_outputs inputs (layers_ s) !! i = Some out -> t !! i = Some ti ->
     length out = length ti) ->
  get_loss_all E inputs t s <> Abort OutOfBounds
  /\ get_loss_all E inputs t s <> Abort AssertFailed.
Proof.
  intros Hlen Hdim. unfold get_loss_all.
  assert (Hgen : forall count start acc (s0 : net) k,
             (start + count <= length inputs)%nat ->
             (forall j out ti,
                loss_outputs (drop start inputs) (layers_ s0) !! j = Some out ->
                t !! (start + j)%nat = Some ti ->
                length out = length ti) ->
             fold_range start count
               (fun i sum_loss =>
                  do x <- checked OutOfBounds (inputs !! i);
                  do predicted <- predict x;
                  do x' <- checked OutOfBounds (inputs !! i);
                  do out <- predict x';
                  do ti <- checked OutOfBounds (t !! i);
                  do e <- get_loss E out ti;
                  ret (fadd sum_loss e)) acc s0
             = Abort k -> k = NullDeref).
  { induction count as [|count IH]; intros start acc s0 k Hc Hd;
      cbn [fold_range]; [discriminate |].
    destruct (lookup_lt_is_Some_2 inputs start ltac:(lia)) as [x Hx].
    destruct (lookup_lt_is_Some_2 t start ltac:(lia)) as [ti Hti].
    rewrite (drop_S _ _ _ Hx) in Hd. cbn [loss_outputs] in Hd.
    rewrite Hx, Hti. unfold checked. cbv beta iota. call_normal.
    destruct (predict x s0) as [p1 s1| e1 s1 |k1] eqn:H1;
      [| unfold bind at 1; rewrite H1; discriminate
       | unfold bind at 1; rewrite H1; intros Hk; inversion Hk; subst;
         exact (predict_aborts _ _ _ H1)].
    rewrite (bind_step _ _ _ _ _ H1). call_normal.
    destruct (predict x s1) as [p2 s2| e2 s2 |k2] eqn:H2;
      [| unfold bind at 1; rewrite H2; discriminate
       | unfold bind at 1; rewrite H2; intros Hk; inversion Hk; subst;
         exact (predict_aborts _ _ _ H2)].
    rewrite (bind_step _ _ _ _ _ H2). call_normal.
    apply fprop_returns in H1 as [_ Hls1].
    apply fprop_returns in H2 as [Hout Hls2].
    rewrite Hls1 in Hout, Hls2.
    assert (Hsame : length p2 = length ti).
    { apply (Hd 0%nat); [rewrite Hout; reflexivity |].
      rewrite Nat.add_0_r. exact Hti. }
    destruct (get_loss_returns p2 ti s2 Hsame) as [e He].
    rewrite (bind_step _ _ _ _ _ He). call_normal.
    apply IH; [lia |].
    intros j out tj Hj Htj. apply (Hd (Datatypes.S j)).
    - rewrite Hls2 in Hj. exact Hj.
    - rewrite <- Htj. f_equal. lia. }
  assert (Hstart : forall j out ti,
            loss_outputs (drop 0 inputs) (layers_ s) !! j = Some out ->
            t !! (0 + j)%nat = Some ti -> length out = length ti).
  { intros j out ti. rewrite drop_0. apply Hdim. }
  split; intros Habs; apply Hgen in Habs; try lia; try exact Hstart;
    discriminate.
Qed.

End EvaluationFrame.

Section EvaluationKeeps.
Context {float_t L Optimizer : Type}.
Context {float_ops : FloatOps float_t}.
Context {collab : Collaborators float_t L Optimizer}.
Variable E : loss_function float_t.

Abbreviation vec_t := (list float_t).
Abbreviation layer := (layer_base float_t L).
Abbreviation net := (network float_t L Optimizer).
Abbreviation call := (M net).

(** The contract of the layers: forward propagation leaves the weight and
    bias vectors alone. *)
Hypothesis forward_keeps :
  forall (x : vec_t) (idx : Z) (ls : list layer),
    params_of (snd (forward_propagation x idx ls)) = params_of ls.

Lemma keeps_int_incr (x : Z) : keeps_params (int_incr x : call Z).
Proof. unfold int_incr. keeps. Qed.

(** X9. Evaluation does not train: the layers' forward propagation leaving
    the parameters alone, [test(in, t)], [test(in)], [get_loss(in, t)] and
    [predict_max_value] return with every weight and bias vector as it was
    on entry. *)
Theorem evaluation_keeps_params (inputs targets : list vec_t)
    (labels_ : list nat) (x : vec_t) :
  keeps_params (test inputs labels_)
  /\ keeps_params (test_outputs inputs)
  /\ keeps_params (get_loss_all E inputs targets)
  /\ keeps_params (predict_max_value x).
Proof.
  pose proof (keeps_fprop forward_keeps) as Hf.
  pose proof (keeps_get_loss (L:=L) (Optimizer:=Optimizer) E) as Hl.
  pose proof keeps_int_incr as Hi.
  repeat split.
  - unfold test, test_sample, fprop_max_index. keeps.
  - unfold test_outputs, fold_i, predict. keeps.
  - unfold get_loss_all, predict. keeps.
  - unfold predict_max_value, fprop_max. keeps.
Qed.

End EvaluationKeeps.

(** *** fprop_max *)

Section MaxElement.
Context {float_t : Type}.
Context {float_ops : FloatOps float_t}.

Abbreviation vec_t := (list float_t).

(** [>] on [float_t] is a strict order. *)
Hypothesis fgt_irreflexive : forall a : float_t, fgt a a = false.
Hypothesis fgt_transitive :
  forall a b c : float_t, fgt a b = true -> fgt b c = true -> fgt a c = true.

Lemma max_element_from_greatest (v : vec_t) :
  forall (pre : vec_t) largest largest_at,
    pre !! largest_at = Some largest ->
    (forall e, e ∈ pre -> fgt e largest = false) ->
    exists m,
      (pre ++ v) !! max_element_from v largest largest_at (length pre) = Some m
      /\ forall e, e ∈ pre ++ v -> fgt e m = false.
Proof.
  induction v as [|x rest IH]; intros pre largest largest_at Hat Hmax; simpl.
  - exists largest. rewrite app_nil_r. auto.
  - replace (pre ++ x :: rest) with ((pre ++ [x]) ++ rest)
      by (rewrite <- app_assoc; reflexivity).
    replace (Datatypes.S (length pre)) with (length (pre ++ [x]))
      by (rewrite length_app; simpl; lia).
    destruct (fgt x largest) eqn:Hx.
    + apply IH.
      * rewrite lookup_app_r by lia.
        replace (length pre - length pre)%nat with 0%nat by lia. reflexivity.
      * intros e He. apply elem_of_app in He as [He | He].
        -- destruct (fgt e x) eqn:Hex; [| reflexivity].
           pose proof (fgt_transitive e x largest Hex Hx) as Hgt.
           rewrite (Hmax e He) in Hgt. discriminate.
        -- apply list_elem_of_singleton in He. subst e. apply fgt_irreflexive.
    + apply IH.
      * apply lookup_app_l_Some. exact Hat.
      * intros e He. apply elem_of_app in He as [He | He].
        -- apply Hmax. exact He.
        -- apply list_elem_of_singleton in He. subst e. exact Hx.
Qed.

End MaxElement.

Section FpropMax.
Context {float_t L Optimizer : Type}.
Context {float_ops : FloatOps float_t}.
Context {collab : Collaborators float_t L Optimizer}.

Abbreviation vec_t := (list float_t).
Abbreviation net := (network float_t L Optimizer).

Hypothesis fgt_irreflexive : forall a : float_t, fgt a a = false.
Hypothesis fgt_transitive :
  forall a b c : float_t, fgt a b = true -> fgt b c = true -> fgt a c = true.

(** X10. [>] being a strict order on [float_t], the value
    [predict_max_value] returns is an element of the output of the forward
    pass that no element of the output is greater than; on an empty output
    the call has no defined behaviour (the end iterator is dereferenced). *)
Theorem predict_max_value_greatest (x : vec_t) (s : net) :
  (forall m s',
     predict_max_value x s = Ret m s' ->
     exists out,
       fprop x 0 s = Ret out s'
       /\ m ∈ out /\ forall e, e ∈ out -> fgt e m = false)
  /\ (forall s', fprop x 0 s = Ret [] s' ->
      predict_max_value x s = Abort OutOfBounds).
Proof.
  unfold predict_max_value, fprop_max. split.
  - intros m s' H. split_call H as out s1 Hout.
    exists out. destruct out as [|o rest]; simpl in H; [discriminate |].
    apply checked_returns in H as [H ->]. split; [exact Hout |].
    destruct (max_element_from_greatest fgt_irreflexive fgt_transitive rest
                [o] o 0%nat eq_refl) as (m' & Hm' & Hmax).
    { intros e He. apply list_elem_of_singleton in He. subst e.
      apply fgt_irreflexive. }
    simpl in Hm'. rewrite H in Hm'. inversion Hm'; subst m'.
    split; [| exact Hmax].
    eapply list_elem_of_lookup_2. exact H.
  - intros s' H. rewrite (bind_step _ _ _ _ _ H). reflexivity.
Qed.

End FpropMax.

(** *** has_same_weights *)

Section SameWeights.
Context {float_t L L2 : Type}.

Variable layer_same :
  layer_base float_t L -> layer_base float_t L2 -> float_t -> bool.

(** X11. [has_same_weights] compares the two chains layer by layer only as
    far as both reach: it returns [true] exactly when every layer that has
    a counterpart at the same position has the same weights as it.  Layers
    one network has beyond the depth of the other are not looked at. *)
Theorem has_same_weights_common_depth {Optimizer O2 : Type}
    (n : network float_t L Optimizer) (others : network float_t L2 O2)
    (eps : float_t) :
  has_same_weights layer_same n others eps = true
  <-> forall i l1 l2,
        layers_ n !! i = Some l1 -> layers_ others !! i = Some l2 ->
        layer_same l1 l2 eps = true.
Proof.
  unfold has_same_weights.
  generalize (layers_ n) as h1. generalize (layers_ others) as h2.
  intros h2 h1. revert h2.
  induction h1 as [|l1 rest1 IH]; intros h2; simpl.
  - split; [intros _ i l1 l2 H; discriminate | reflexivity].
  - destruct h2 as [|l2 rest2].
    + split; [intros _ i l1' l2' _ H; discriminate | reflexivity].
    + destruct (layer_same l1 l2 eps) eqn:Hsame.
      * rewrite IH. split.
        -- intros H [|i] l1' l2' H1 H2; simpl in *.
           ++ inversion H1; inversion H2; subst. exact Hsame.
           ++ eapply H; eassumption.
        -- intros H i l1' l2' H1 H2. apply (H (Datatypes.S i)); assumption.
      * split; [discriminate |].
        intros H. rewrite <- Hsame. apply (H 0%nat); reflexivity.
Qed.

End SameWeights.

(** *** More on the loops of train *)

Lemma for_range_ext_in {S : Type} (b1 b2 : nat -> M S unit) count :
  forall start s,
    (forall i s', (start <= i < start + count)%nat -> b1 i s' = b2 i s') ->
    for_range start count b1 s = for_range start count b2 s.
Proof.
  induction count as [|count IH]; intros start s H; simpl; [reflexivity |].
  apply bind_cong; [apply H; lia |].
  intros _ s1. apply IH. intros i s' Hi. apply H. lia.
Qed.

Section TrainMore.
Context {float_t L Optimizer : Type}.
Context {float_ops : FloatOps float_t}.
Context {collab : Collaborators float_t L Optimizer}.
Variable E : loss_function float_t.

Abbreviation vec_t := (list float_t).
Abbreviation layer := (layer_base float_t L).
Abbreviation net := (network float_t L Optimizer).
Abbreviation call := (M net).

Variable input_data_function : Z -> call vec_t.
Variable output_data_function : Z -> Z -> call (target float_t).
Variables on_batch_enumerate on_epoch_enumerate : call unit.
Variables in_size batch_size n_threads : Z.

Abbreviation batches :=
  (train_batches E input_data_function output_data_function
     on_batch_enumerate in_size batch_size n_threads).
Abbreviation epochs :=
  (train_epochs E input_data_function output_data_function
     on_batch_enumerate on_epoch_enumerate in_size batch_size n_threads).
Abbreviation training :=
  (train E input_data_function output_data_function on_batch_enumerate
     on_epoch_enumerate in_size batch_size n_threads).

Lemma epochs_without_samples fuel n :
  in_size <= 0 ->
  forall s,
    epochs (Datatypes.S fuel) n s <> None
    /\ forall b log s',
         epochs (Datatypes.S fuel) n s = Some (Ret (b, log) s') ->
         b = true /\ log = [].
Proof.
  intros Hn. induction n as [|n IH]; intros s.
  - simpl. split; [discriminate |].
    intros b log s' H. inversion H. auto.
  - cbn [train_epochs].
    match goal with
    | |- context [if ?c then calc_hessian _ _ _ _ else _] =>
        destruct ((if c then calc_hessian E input_data_function in_size 500
                   else ret tt) s) as [u s0| |]
    end; cbn [bind_fuel];
      [| split; [discriminate | intros; discriminate] ..].
    cbn [train_batches].
    destruct (0 <? in_size) eqn:Hlt; [apply Z.ltb_lt in Hlt; lia |].
    cbn [bind_fuel fst snd].
    destruct (on_epoch_enumerate s0) as [u' s1| |]; cbn [bind_fuel];
      [| split; [discriminate | intros; discriminate] ..].
    destruct (IH s1) as [Hsome Hres].
    destruct (epochs (Datatypes.S fuel) n s1) as [[[b1 log1] s2| |]|];
      cbn [bind_fuel]; [| split; [discriminate | intros; discriminate] ..
                        | contradiction].
    destruct (Hres b1 log1 s2 eq_refl) as [-> ->].
    split; [discriminate |].
    intros b log s' H. inversion H; subst; clear H. auto.
Qed.

(** X12. With no sample ([in_size = 0]) or no epoch ([epoch <= 0]), [train]
    terminates without running a mini-batch: whenever it returns, it
    returns [true]. *)
Theorem train_nothing_to_do (fuel : nat) (epoch : Z) (reset_weights : bool)
    (s : net) :
  in_size <= 0 \/ epoch <= 0 ->
  training (Datatypes.S fuel) epoch reset_weights s <> None
  /\ forall b log s',
       training (Datatypes.S fuel) epoch reset_weights s
       = Some (Ret (b, log) s') ->
       b = true /\ log = [].
Proof.
  intros Hcase. unfold train.
  destruct (train_prologue batch_size reset_weights s) as [u s0| |];
    cbn [bind_fuel]; [| split; [discriminate | intros; discriminate] ..].
  destruct Hcase as [Hn | He].
  - apply epochs_without_samples. exact Hn.
  - replace (Z.to_nat epoch) with 0%nat by lia. simpl.
    split; [discriminate |]. intros b log s' H. inversion H. auto.
Qed.

Hypothesis batch_size_positive : 1 <= batch_size.
Hypothesis in_size_nonneg : 0 <= in_size.
Hypothesis index_in_range :
  ceil_div in_size batch_size * batch_size < SIZE_MODULUS.

Lemma batches_offsets fuel :
  forall k s log s',
    0 <= k <= ceil_div in_size batch_size ->
    batches fuel (k * batch_size) s = Some (Ret (true, log) s') ->
    fst <$> log
    = (fun j => j * batch_size) <$> seqZ k (ceil_div in_size batch_size - k).
Proof.
  induction fuel as [|fuel IH]; intros k s log s' Hk H; simpl in H;
    [discriminate |].
  destruct (k * batch_size <? in_size) eqn:Hlt.
  - apply Z.ltb_lt, below_ceil_div in Hlt; [| assumption].
    simpl in H.
    match type of H with
    | context [match ?o with Ret _ _ => _ | _ => _ end] =>
        destruct o as [u s1| |]; try discriminate
    end.
    destruct (explosion_detected (k * batch_size, s1)); [discriminate |].
    rewrite (next_index in_size batch_size batch_size_positive index_in_range)
      in H by lia.
    destruct (batches fuel ((k + 1) * batch_size) s1)
      as [[[b0 log0] s2| |]|] eqn:Hr; simpl in H; try discriminate.
    inversion H; subst; clear H.
    apply IH in Hr; [| lia].
    rewrite seqZ_cons by lia. rewrite !fmap_cons, Hr. cbn [fst].
    f_equal. f_equal. f_equal; lia.
  - inversion H; subst; clear H. simpl.
    apply Z.ltb_ge in Hlt.
    assert (~ k < ceil_div in_size batch_size).
    { intros Hc. apply below_ceil_div in Hc; [lia | assumption]. }
    rewrite seqZ_nil by lia. reflexivity.
Qed.

Lemma epochs_offsets fuel n :
  forall s log s',
    epochs fuel n s = Some (Ret (true, log) s') ->
    fst <$> log = mjoin (replicate n (batch_offsets in_size batch_size)).
Proof.
  pose proof (ceil_div_nonneg in_size batch_size batch_size_positive
                in_size_nonneg) as Hc.
  induction n as [|n IH]; intros s log s' H; simpl in H.
  - inversion H; subst; clear H. reflexivity.
  - match type of H with
    | context [if ?c then calc_hessian _ _ _ _ else _] =>
        destruct ((if c then calc_hessian E input_data_function in_size 500
                   else ret tt) s) as [u s0| |]; simpl in H;
          try discriminate
    end.
    destruct (batches fuel 0 s0) as [[[b0 log0] s1| |]|] eqn:Hb;
      simpl in H; try discriminate.
    destruct b0; [| discriminate].
    apply (batches_offsets fuel 0) in Hb; [| lia].
    destruct (on_epoch_enumerate s1) as [u' s2| |]; simpl in H;
      try discriminate.
    destruct (epochs fuel n s2) as [[[b1 log1] s3| |]|] eqn:He;
      simpl in H; try discriminate.
    inversion H; subst; clear H. apply IH in He.
    rewrite fmap_app, Hb, He. simpl. unfold batch_offsets.
    rewrite Z.sub_0_r. reflexivity.
Qed.

(** X13. Under the conditions of termination ([batch_size >= 1], the loop
    index within [size_t]), a run of [train] that is not cut short has run,
    in every epoch, the mini-batches of offsets 0, [batch_size],
    [2 * batch_size], ... up to the last one below [in_size], in this
    order. *)
Theorem train_minibatch_offsets (fuel : nat) (epoch : Z)
    (reset_weights : bool) (s s' : net) (log : list step) :
  training fuel epoch reset_weights s = Some (Ret (true, log) s') ->
  fst <$> log
  = mjoin (replicate (Z.to_nat epoch) (batch_offsets in_size batch_size)).
Proof.
  unfold train. intros H.
  destruct (train_prologue batch_size reset_weights s) as [u s0| |];
    simpl in H; try discriminate.
  apply epochs_offsets in H. exact H.
Qed.

End TrainMore.

(** *** calc_hessian *)

Section HessianFacts.
Context {float_t L Optimizer : Type}.
Context {float_ops : FloatOps float_t}.
Context {collab : Collaborators float_t L Optimizer}.
Variable E : loss_function float_t.

Abbreviation vec_t := (list float_t).
Abbreviation net := (network float_t L Optimizer).
Abbreviation call := (M net).

(** X14. The curvature pass reads the first [min(in_size, 500)] inputs and
    no other: two data sets that agree on them give the same run of
    [calc_hessian]. *)
Theorem calc_hessian_reads_first_500
    (data1 data2 : Z -> call vec_t) (in_size : Z) (s : net) :
  0 <= in_size ->
  (forall i s', 0 <= i < Z.min in_size 500 -> data1 i s' = data2 i s') ->
  calc_hessian E data1 in_size 500 s = calc_hessian E data2 in_size 500 s.
Proof.
  intros Hn Hsame. unfold calc_hessian.
  assert (Hsize : to_int (Z.min in_size 500) = Z.min in_size 500).
  { unfold to_int. rewrite Z.mod_small; lia. }
  rewrite Hsize. apply bind_cong; [| reflexivity].
  unfold for_int. apply for_range_ext_in. intros i s' Hi.
  apply bind_cong; [| reflexivity]. apply Hsame. lia.
Qed.

End HessianFacts.

(** *** train_onebatch *)

Section OneBatch.
Context {float_t L Optimizer : Type}.
Context {float_ops : FloatOps float_t}.
Context {collab : Collaborators float_t L Optimizer}.
Variable E : loss_function float_t.

Abbreviation vec_t := (list float_t).
Abbreviation net := (network float_t L Optimizer).
Abbreviation call := (M net).

Variable input_data_function : Z -> call vec_t.
Variable output_data_function : Z -> Z -> call (target float_t).
Variables in_offset in_size num_tasks : Z.

Abbreviation num_threads := (Z.min in_size num_tasks).
Abbreviation data_per_thread := ((in_size + num_threads - 1) / num_threads).

Hypothesis batch_not_empty : 1 <= in_size.
Hypothesis some_task : 1 <= num_tasks.
Hypothesis offset_nonneg : 0 <= in_offset.
Hypothesis end_indices_are_ints :
  in_offset + num_threads * data_per_thread <= INT_MAX.

Lemma sizes_facts :
  1 <= num_threads <= in_size
  /\ 1 <= data_per_thread
  /\ in_size <= num_threads * data_per_thread
  /\ num_threads * data_per_thread <= in_size + num_threads - 1.
Proof.
  assert (Hnt : 1 <= num_threads <= in_size) by lia.
  split; [exact Hnt |].
  pose proof (Z.mul_div_le (in_size + num_threads - 1) num_threads
                ltac:(lia)) as Hle.
  pose proof (Z.mul_succ_div_gt (in_size + num_threads - 1) num_threads
                ltac:(lia)) as Hgt.
  split; [| split]; nia.
Qed.

Lemma worker_range (i : Z) (s : net) :
  0 <= i < num_threads ->
  onebatch_worker E input_data_function output_data_function in_offset
    in_size data_per_thread i s
  = for_int (in_offset + Z.min in_size (i * data_per_thread))
      (in_offset + Z.min in_size ((i + 1) * data_per_thread))
      (fun j =>
         process_sample E input_data_function output_data_function j i)
      s.
Proof.
  intros Hi. destruct sizes_facts as (Hnt & Hd & Hcover & Hupper).
  pose proof end_indices_are_ints as Hint. unfold INT_MAX in Hint.
  set (d := data_per_thread) in *.
  set (total := num_threads * d) in *.
  assert (Hid : 0 <= i * d /\ i * d + d <= total) by (unfold total; nia).
  unfold onebatch_worker.
  assert (Hshare : checked_int (i * d) s = Ret (i * d) s).
  { unfold checked_int, in_int_range, INT_MIN, INT_MAX.
    replace ((- 2 ^ 31 <=? i * d) && (i * d <=? 2 ^ 31 - 1)) with true;
      [reflexivity |].
    symmetry. apply andb_true_iff. split; apply Z.leb_le; lia. }
  rewrite (bind_step _ _ _ _ _ Hshare).
  assert (Hstart : to_int (to_size (in_offset + to_size (i * d)))
                   = in_offset + i * d).
  { unfold to_int, to_size, SIZE_MODULUS.
    rewrite (Z.mod_small (i * d)) by lia.
    rewrite (Z.mod_small (in_offset + i * d)) by lia.
    rewrite Z.mod_small by lia. lia. }
  rewrite Hstart.
  assert (Hstop : checked_int (in_offset + i * d + d) s
                  = Ret (in_offset + i * d + d) s).
  { unfold checked_int, in_int_range, INT_MIN, INT_MAX.
    replace ((- 2 ^ 31 <=? in_offset + i * d + d)
             && (in_offset + i * d + d <=? 2 ^ 31 - 1)) with true;
      [reflexivity |].
    symmetry. apply andb_true_iff. split; apply Z.leb_le; lia. }
  rewrite (bind_step _ _ _ _ _ Hstop).
  assert (Hlast : to_int (to_size (in_offset + in_size))
                  = in_offset + in_size).
  { unfold to_int, to_size, SIZE_MODULUS.
    rewrite (Z.mod_small (in_offset + in_size)) by lia.
    rewrite Z.mod_small by lia. lia. }
  rewrite Hlast. unfold for_int, process_sample.
  replace ((i + 1) * d) with (i * d + d) by lia.
  destruct (Z_le_gt_dec (i * d) in_size) as [Hle | Hgt].
  - replace (Z.min in_size (i * d)) with (i * d) by lia.
    replace (Z.min (in_offset + in_size) (in_offset + i * d + d)
             - (in_offset + i * d))
      with (in_offset + Z.min in_size (i * d + d) - (in_offset + i * d))
      by lia.
    reflexivity.
  - replace (Z.to_nat (Z.min (in_offset + in_size) (in_offset + i * d + d)
                       - (in_offset + i * d))) with 0%nat by lia.
    replace (Z.to_nat (in_offset + Z.min in_size (i * d + d)
                       - (in_offset + Z.min in_size (i * d))))
      with 0%nat by lia.
    reflexivity.
Qed.

(** X15. For a mini-batch of [in_size >= 1] samples at [in_offset >= 0],
    [num_tasks >= 1] and [in_offset + num_threads * data_per_thread <=
    INT_MAX] (the largest end index a worker computes), where
    [num_threads = min(in_size, num_tasks)] and
    [data_per_thread = ceil(in_size / num_threads)]: [train_onebatch] hands
    [for_i] the [num_threads] workers and then calls
    [update_weights(num_threads, in_size)] once; the worker [i] propagates,
    on the slot [i], the samples of index [in_offset + i * data_per_thread]
    up to, and not including, [in_offset + min(in_size, (i + 1) *
    data_per_thread)] forward and backward, one after the other (none when
    [i * data_per_thread] is not below [in_size]); the range of a worker
    ends where the next one starts and the last one ends at
    [in_offset + in_size], so that every sample of the mini-batch belongs
    to exactly one worker.  Nothing is said of the order in which [for_i]
    runs the workers. *)
Theorem train_onebatch_partition (s : net) :
  train_onebatch E input_data_function output_data_function in_offset in_size
    num_tasks s
  = (do_ for_i num_threads
           (onebatch_worker E input_data_function output_data_function
              in_offset in_size data_per_thread);
     layers_update_weights num_threads in_size) s
  /\ (forall (i : Z) (s1 : net),
        0 <= i < num_threads ->
        onebatch_worker E input_data_function output_data_function in_offset
          in_size data_per_thread i s1
        = for_int (in_offset + Z.min in_size (i * data_per_thread))
            (in_offset + Z.min in_size ((i + 1) * data_per_thread))
            (fun j =>
               process_sample E input_data_function output_data_function j i)
            s1)
  /\ in_size <= num_threads * data_per_thread.
Proof.
  destruct sizes_facts as (Hnt & Hd & Hcover & Hupper).
  pose proof end_indices_are_ints as Hint. unfold INT_MAX in Hint.
  split; [| split; [intros i s1 Hi; apply worker_range; exact Hi | lia]].
  unfold train_onebatch.
  assert (Hsize : to_int in_size = in_size).
  { unfold to_int. rewrite Z.mod_small by lia. lia. }
  rewrite Hsize.
  assert (Hthreads : to_size num_threads = num_threads).
  { unfold to_size, SIZE_MODULUS. apply Z.mod_small. lia. }
  rewrite Hthreads.
  destruct (num_threads =? 0) eqn:Hz; [apply Z.eqb_eq in Hz; lia |].
  assert (Hper : to_int (to_size (in_size + num_threads - 1) / num_threads)
                 = data_per_thread).
  { unfold to_int, to_size, SIZE_MODULUS.
    rewrite (Z.mod_small (in_size + num_threads - 1)) by lia.
    rewrite Z.mod_small by nia. lia. }
  rewrite Hper, bind_ret_l.
  reflexivity.
Qed.

End OneBatch.

(** *** gradient_check with a mode it does not know, and the overloads of
    bprop *)

Lemma all_range_true {S : Type} (check : nat -> M S bool) (s : S) count :
  forall start,
    (forall k, (start <= k < start + count)%nat -> check k s = Ret true s) ->
    all_range start count check s = Ret true s.
Proof.
  induction count as [|count IH]; intros start Hall; [reflexivity |].
  cbn [all_range]. rewrite (bind_step _ _ _ _ _ (Hall start ltac:(lia))).
  apply IH. intros k Hk. apply Hall. lia.
Qed.

Lemma all_range_throws {S : Type} (check : nat -> M S bool) (s : S) e count :
  forall start,
    (forall k, (start <= k < start + count)%nat ->
       check k s = Ret true s \/ check k s = Throw e s) ->
    (exists k, (start <= k < start + count)%nat /\ check k s = Throw e s) ->
    all_range start count check s = Throw e s.
Proof.
  induction count as [|count IH]; intros start Hall (k & Hk & Hthrow);
    [lia |].
  cbn [all_range].
  destruct (Hall start ltac:(lia)) as [Hok | Hbad].
  - rewrite (bind_step _ _ _ _ _ Hok). apply IH.
    + intros k' Hk'. apply Hall. lia.
    + exists k. split; [| exact Hthrow].
      destruct (decide (k = start)) as [-> | Hne]; [congruence | lia].
  - unfold bind. rewrite Hbad. reflexivity.
Qed.


Section ModesAndOverloads.
Context {float_t L Optimizer : Type}.
Context {float_ops : FloatOps float_t}.
Context {collab : Collaborators float_t L Optimizer}.
Variable E : loss_function float_t.

Abbreviation vec_t := (list float_t).
Abbreviation layer := (layer_base float_t L).
Abbreviation net := (network float_t L Optimizer).
Abbreviation call := (M net).

Lemma layers_tail_state (s s' : net) (l : layer) :
  layers_tail s = Ret l s' -> s' = s.
Proof.
  unfold layers_tail, bind, get, checked.
  destruct (last (layers_ s)); intros H; inversion H; reflexivity.
Qed.

Lemma label2vector_state (t : nat) (s s' : net) (v : vec_t) :
  label2vector t s = Ret v s' -> s' = s.
Proof.
  unfold label2vector, out_dim, target_value_min, target_value_max.
  intros H.
  split_call H as n s1 H1. split_call H1 as l1 s2 H2.
  inversion H1; subst. apply layers_tail_state in H2. subst s1. clear H1.
  split_call H as lo s1 H1. split_call H1 as l2 s2 H2.
  inversion H1; subst. apply layers_tail_state in H2. subst s1. clear H1.
  split_call H as hi s1 H1. split_call H1 as l3 s2 H2.
  inversion H1; subst. apply layers_tail_state in H2. subst s1. clear H1.
  match type of H with context [decide ?P] => destruct (decide P) end;
    inversion H; reflexivity.
Qed.

Lemma label2vector_all_state (t : list nat) (data_size : Z) (s s' : net)
    (v : list vec_t) :
  label2vector_all t data_size s = Ret v s' -> s' = s.
Proof.
  unfold label2vector_all. generalize (@nil vec_t) at 2 as acc.
  generalize 0%nat as start. revert s.
  induction (Z.to_nat data_size) as [|count IH]; intros s start acc H;
    cbn [fold_range] in H.
  - inversion H. reflexivity.
  - split_call H as acc1 s1 H1.
    apply IH in H. subst s'.
    split_call H1 as ti s2 H2.
    split_call H1 as vi s3 H3.
    inversion H1; subst. apply label2vector_state in H3. subst s2.
    unfold checked in H2. destruct (t !! start); inversion H2. reflexivity.
Qed.

Variable uniform_idx : nat -> param_sel -> nat -> Z.

(** X16. [gradient_check] looks at its [mode] only for a layer that has
    weights.  Called with a mode that is neither [GRAD_CHECK_ALL] nor
    [GRAD_CHECK_RANDOM] on a network whose labels expand and whose layers
    have their slot-0 accumulators, it returns [true] and leaves the
    network as it was when no layer after the head has weights, and throws
    [unknown grad-check type] as soon as one has. *)
Theorem gradient_check_unknown_mode (inputs : list vec_t) (t : list nat)
    (data_size : Z) (eps : float_t) (m : Z) (s s1 : net) (v : list vec_t) :
  layers_ s <> [] ->
  label2vector_all t data_size s = Ret v s1 ->
  (forall k l, (1 <= k)%nat -> layers_ s !! k = Some l ->
     is_Some (diff0 sel_weight l) /\ is_Some (diff0 sel_bias l)) ->
  ((forall k l, (1 <= k)%nat -> layers_ s !! k = Some l -> weight l = []) ->
   gradient_check E uniform_idx inputs t data_size eps (grad_check_other m) s
   = Ret true s)
  /\ ((exists k l, (1 <= k)%nat /\ layers_ s !! k = Some l /\ weight l <> []) ->
      gradient_check E uniform_idx inputs t data_size eps (grad_check_other m)
        s
      = Throw unknown_grad_check_type s).
Proof.
  intros Hne Hv Hdiff.
  pose proof (label2vector_all_state _ _ _ _ _ Hv) as ->.
  assert (Hstep : forall k l, (1 <= k)%nat -> layers_ s !! k = Some l ->
            (do current <- layer_at k;
             do_ checked OutOfBounds (diff0 sel_weight current);
             do_ checked OutOfBounds (diff0 sel_bias current);
             if decide (weight current = []) then ret true
             else (throw unknown_grad_check_type : call bool)) s
            = if decide (weight l = []) then Ret true s
              else Throw unknown_grad_check_type s).
  { intros k l Hk Hl. destruct (Hdiff k l Hk Hl) as [[dw Hdw] [db Hdb]].
    assert (Hat : layer_at k s = Ret l s).
    { unfold layer_at, bind, get, checked. rewrite Hl. reflexivity. }
    rewrite (bind_step _ _ _ _ _ Hat). unfold checked.
    rewrite Hdw, Hdb, !bind_ret_l.
    destruct (decide (weight l = [])); reflexivity. }
  unfold gradient_check, check_layers.
  split.
  - intros Hempty.
    unfold bind at 1. unfold get at 1.
    destruct (decide (layers_ s = [])) as [Habs | _]; [contradiction |].
    unfold bind at 1. unfold ret at 1.
    rewrite (bind_step _ _ _ _ _ Hv).
    unfold bind at 1. unfold get at 1.
    apply all_range_true. intros k Hk.
    destruct (lookup_lt_is_Some_2 (layers_ s) k ltac:(lia)) as [l Hl].
    rewrite (Hstep k l ltac:(lia) Hl).
    rewrite decide_True by (apply (Hempty k l); [lia | exact Hl]).
    reflexivity.
  - intros (k & l & Hk & Hl & Hw).
    unfold bind at 1. unfold get at 1.
    destruct (decide (layers_ s = [])) as [Habs | _]; [contradiction |].
    unfold bind at 1. unfold ret at 1.
    rewrite (bind_step _ _ _ _ _ Hv).
    unfold bind at 1. unfold get at 1.
    apply all_range_throws.
    + intros k' Hk'.
      destruct (lookup_lt_is_Some_2 (layers_ s) k' ltac:(lia)) as [l' Hl'].
      rewrite (Hstep k' l' ltac:(lia) Hl').
      destruct (decide (weight l' = [])); [left | right]; reflexivity.
    + exists k. split.
      * apply lookup_lt_Some in Hl. lia.
      * rewrite (Hstep k l Hk Hl). rewrite decide_False by exact Hw.
        reflexivity.
Qed.


End ModesAndOverloads.

(** *** image2vec *)

(** A loop that sets the element [i] of a vector to [g i] for each [i] of
    its range, and reads only the elements it has not yet set. *)
Lemma fill_range_from {S A : Type} (body : nat -> list A -> M S (list A))
    (g : nat -> A) (init : list A) count :
  forall start acc s,
    (forall i acc' s', (start <= i < start + count)%nat ->
       length acc' = length init -> acc' !! i = init !! i ->
       body i acc' s' = Ret (<[i := g i]> acc') s') ->
    length acc = length init ->
    (forall i, (start <= i)%nat -> acc !! i = init !! i) ->
    (start + count <= length init)%nat ->
    exists d,
      fold_range start count body acc s = Ret d s
      /\ length d = length init
      /\ (forall i, (i < start)%nat -> d !! i = acc !! i)
      /\ (forall i, (start <= i < start + count)%nat -> d !! i = Some (g i)).
Proof.
  induction count as [|count IH]; intros start acc s Hbody Hlen Hrest Hfit;
    cbn [fold_range].
  - exists acc. split; [reflexivity |]. split; [exact Hlen |].
    split; intros; [reflexivity | lia].
  - rewrite (bind_step _ _ _ _ _
               (Hbody start acc s ltac:(lia) Hlen (Hrest start ltac:(lia)))).
    destruct (IH (Datatypes.S start) (<[start := g start]> acc) s)
      as (d & Hrun & Hd & Hbefore & Hin).
    + intros i acc' s' Hi. apply Hbody. lia.
    + rewrite length_insert. exact Hlen.
    + intros i Hi. rewrite list_lookup_insert_ne by lia. apply Hrest. lia.
    + lia.
    + exists d. split; [exact Hrun |]. split; [exact Hd |]. split.
      * intros i Hi. rewrite Hbefore by lia.
        apply list_lookup_insert_ne. lia.
      * intros i Hi. destruct (decide (i = start)) as [-> | Hne].
        -- rewrite Hbefore by lia. apply list_lookup_insert_eq. lia.
        -- apply Hin. lia.
Qed.

Section ImageFacts.
Context {S A : Type}.
Variable zero : A.
Variable data : list A.
Variables rows cols sizepatch step : Z.

Hypothesis patch_nonneg : 0 <= sizepatch.
Hypothesis patch_fits_cols : sizepatch <= cols.
Hypothesis patch_fits_rows : sizepatch <= rows.
Hypothesis cols_small : cols < 2 ^ 15.
Hypothesis rows_small : rows < 2 ^ 15.
Hypothesis step_positive : 1 <= step.

Abbreviation per_row := ((cols - sizepatch) / step).
Abbreviation area := (Z.to_nat (sizepatch * sizepatch)).

Lemma to_uint_small (z : Z) : 0 <= z < 2 ^ 32 -> to_uint z = z.
Proof. intros Hz. unfold to_uint. apply Z.mod_small. exact Hz. Qed.

Lemma to_int_small (z : Z) : 0 <= z < 2 ^ 31 -> to_int z = z.
Proof. intros Hz. unfold to_int. rewrite Z.mod_small by lia. lia. Qed.

Lemma grid_count_bound :
  0 <= grid_count rows cols sizepatch step
  /\ step * step * grid_count rows cols sizepatch step
     <= (cols - sizepatch) * (rows - sizepatch)
  /\ (cols - sizepatch) * (rows - sizepatch) < 2 ^ 30.
Proof.
  unfold grid_count.
  assert (Hss : 0 < step * step) by nia.
  assert (Harea : 0 <= (cols - sizepatch) * (rows - sizepatch)) by nia.
  split; [apply Z.div_pos; lia |].
  split; [apply Z.mul_div_le; exact Hss |].
  assert ((cols - sizepatch) * (rows - sizepatch)
          <= (2 ^ 15 - 1) * (2 ^ 15 - 1));
    [apply Z.mul_le_mono_nonneg; lia | lia].
Qed.

Section NoWrap.
Hypothesis step_fits : step <= cols - sizepatch.

Lemma patch_count_exact :
  patch_count rows cols sizepatch step = grid_count rows cols sizepatch step.
Proof.
  destruct grid_count_bound as (_ & _ & Harea).
  unfold patch_count, grid_count.
  rewrite (to_uint_small (cols - sizepatch)) by lia.
  rewrite (to_uint_small (rows - sizepatch)) by lia.
  rewrite (to_uint_small ((cols - sizepatch) * (rows - sizepatch))) by nia.
  rewrite (to_uint_small (step * step)) by nia.
  reflexivity.
Qed.

Lemma patches_per_row_exact :
  patches_per_row cols sizepatch step = per_row /\ 1 <= per_row.
Proof.
  unfold patches_per_row. rewrite to_uint_small by lia.
  split; [reflexivity |].
  apply Z.div_le_lower_bound; lia.
Qed.

Lemma position_exact (count : Z) :
  0 <= count < grid_count rows cols sizepatch step ->
  to_int count = count
  /\ patch_row cols sizepatch step count = step * (count / per_row)
  /\ patch_col cols sizepatch step count = step * (count mod per_row)
  /\ 0 <= step * (count / per_row) <= 2 * (rows - sizepatch)
  /\ 0 <= step * (count mod per_row) <= cols - sizepatch.
Proof.
  intros Hcount.
  destruct grid_count_bound as (_ & Hgrid & Harea).
  destruct patches_per_row_exact as (Hper & Hone).
  assert (Hsmall : count < 2 ^ 30) by nia.
  pose proof (Z.mul_div_le (cols - sizepatch) step ltac:(lia)) as Hlow.
  pose proof (Z.mul_succ_div_gt (cols - sizepatch) step ltac:(lia)) as Hhigh.
  pose proof (Z.mul_div_le count per_row ltac:(lia)) as Hq.
  pose proof (Z.mod_pos_bound count per_row ltac:(lia)) as Hm.
  assert (Hq0 : 0 <= count / per_row) by (apply Z.div_pos; lia).
  assert (Hcol : 0 <= step * (count mod per_row) <= cols - sizepatch) by nia.
  assert (Hrow : 0 <= step * (count / per_row) <= 2 * (rows - sizepatch)).
  { split; [nia |].
    set (q := count / per_row) in *. set (p := per_row) in *.
    set (c := cols - sizepatch) in *. set (r := rows - sizepatch) in *.
    assert (Hr : 0 <= r) by lia.
    assert (Ha : c + 1 <= 2 * (step * p)) by nia.
    assert (Hb : step * step * (p * q) <= step * step * count)
      by (apply Z.mul_le_mono_nonneg_l; nia).
    assert (Hc : step * step * (count + 1) <= c * r) by nia.
    assert (Hd : (step * q) * (step * p) < c * r) by nia.
    destruct (Z_le_gt_dec (step * q) (2 * r)) as [Hle | Hgt]; [exact Hle |].
    exfalso.
    assert (He : (2 * r + 1) * (step * p) <= (step * q) * (step * p))
      by (apply Z.mul_le_mono_nonneg_r; nia).
    assert (Hf : (2 * r + 1) * (c + 1) <= 2 * ((2 * r + 1) * (step * p)))
      by nia.
    nia. }
  split; [apply to_int_small; lia |].
  unfold patch_row, patch_col. rewrite Hper.
  rewrite (to_uint_small count) by lia.
  rewrite (to_uint_small (step * (count / per_row))) by lia.
  rewrite (to_uint_small (step * (count mod per_row))) by lia.
  rewrite !to_int_small by lia.
  repeat split; lia.
Qed.

Lemma patch_inside_exact (count : Z) :
  0 <= count < grid_count rows cols sizepatch step ->
  patch_inside rows cols sizepatch step count
  = (step * (count mod per_row) + sizepatch <? cols)
    && (step * (count / per_row) + sizepatch <? rows).
Proof.
  intros Hcount.
  destruct (position_exact count Hcount) as (_ & Hrow & Hcol & Hj & Hi).
  unfold patch_inside. rewrite Hrow, Hcol.
  rewrite !to_uint_small by lia. reflexivity.
Qed.

Hypothesis data_complete : rows * cols <= Z.of_nat (length data).

Lemma pixel_exact (count : Z) (k : nat) :
  0 <= count < grid_count rows cols sizepatch step ->
  patch_inside rows cols sizepatch step count = true ->
  (k < area)%nat ->
  at_index data (pixel_index cols sizepatch step count (Z.of_nat k))
  = Some (pixel zero data cols
            (step * (count / per_row) + Z.of_nat k / sizepatch)
            (step * (count mod per_row) + Z.of_nat k mod sizepatch)).
Proof.
  intros Hcount Hinside Hk.
  destruct (position_exact count Hcount) as (_ & Hrow & Hcol & Hj & Hi).
  rewrite (patch_inside_exact count Hcount) in Hinside.
  apply andb_true_iff in Hinside. destruct Hinside as [Hc Hr].
  apply Z.ltb_lt in Hc, Hr.
  assert (Hsp : 0 < sizepatch) by nia.
  assert (Hdiv : 0 <= Z.of_nat k / sizepatch < sizepatch).
  { split; [apply Z.div_pos; lia |].
    apply Z.div_lt_upper_bound; lia. }
  pose proof (Z.mod_pos_bound (Z.of_nat k) sizepatch Hsp) as Hmod.
  set (y := step * (count / per_row) + Z.of_nat k / sizepatch).
  set (x := step * (count mod per_row) + Z.of_nat k mod sizepatch).
  assert (Hy : 0 <= y < rows) by (unfold y; lia).
  assert (Hx : 0 <= x < cols) by (unfold x; lia).
  assert (Hyc : 0 <= y * cols /\ x + y * cols < rows * cols) by nia.
  assert (Hrc : rows * cols <= 2 ^ 15 * 2 ^ 15)
    by (apply Z.mul_le_mono_nonneg; lia).
  assert (Hidx : pixel_index cols sizepatch step count (Z.of_nat k)
                 = x + y * cols).
  { unfold pixel_index. rewrite Hrow, Hcol.
    rewrite (to_uint_small (step * (count / per_row))) by lia.
    rewrite (to_uint_small (step * (count mod per_row))) by lia.
    rewrite (to_uint_small (Z.of_nat k / sizepatch + _)) by lia.
    rewrite (to_uint_small (Z.of_nat k mod sizepatch + _)) by lia.
    replace (Z.of_nat k / sizepatch + step * (count / per_row)) with y
      by (unfold y; lia).
    replace (Z.of_nat k mod sizepatch + step * (count mod per_row)) with x
      by (unfold x; lia).
    rewrite (to_uint_small (y * cols)) by lia.
    apply to_uint_small. lia. }
  rewrite Hidx. unfold pixel.
  assert (Hsome : is_Some (at_index data (x + y * cols))).
  { unfold at_index. destruct (x + y * cols <? 0) eqn:Hneg;
      [apply Z.ltb_lt in Hneg; lia |].
    apply lookup_lt_is_Some_2. lia. }
  destruct Hsome as [px Hpx]. rewrite Hpx. reflexivity.
Qed.

Lemma fill_patch_returns (count : Z) (patch : list A) (s : S) :
  0 <= count < grid_count rows cols sizepatch step ->
  patch_inside rows cols sizepatch step count = true ->
  length patch = area ->
  fill_patch data cols sizepatch step count patch s
  = Ret (patch_at zero data cols sizepatch
           (step * (count / per_row)) (step * (count mod per_row))) s.
Proof.
  intros Hcount Hinside Hlen.
  assert (Harea : to_uint (sizepatch * sizepatch) = sizepatch * sizepatch).
  { apply to_uint_small.
    assert (sizepatch * sizepatch <= 2 ^ 15 * 2 ^ 15)
      by (apply Z.mul_le_mono_nonneg; lia).
    nia. }
  unfold fill_patch. rewrite Harea.
  destruct (fill_range_from
              (fun k patch' =>
                 do px <- checked OutOfBounds
                            (at_index data
                               (pixel_index cols sizepatch step count
                                  (Z.of_nat k)));
                 if decide (k < length patch')%nat
                 then ret (<[k := px]> patch')
                 else abort OutOfBounds)
              (fun k =>
                 pixel zero data cols
                   (step * (count / per_row) + Z.of_nat k / sizepatch)
                   (step * (count mod per_row) + Z.of_nat k mod sizepatch))
              patch area 0%nat patch s)
    as (d & Hrun & Hd & _ & Hin).
  - intros k acc' s' Hk Hacc _.
    rewrite (pixel_exact count k Hcount Hinside) by lia.
    unfold checked. rewrite bind_ret_l.
    rewrite decide_True by lia. reflexivity.
  - reflexivity.
  - reflexivity.
  - lia.
  - rewrite Hrun. f_equal. unfold patch_at.
    apply list_eq. intros k.
    destruct (decide (k < area)%nat) as [Hk | Hk].
    + rewrite (Hin k) by lia.
      rewrite list_lookup_fmap, lookup_seq_lt by lia. reflexivity.
    + rewrite !lookup_ge_None_2;
        [reflexivity | rewrite length_fmap, length_seq; lia | lia].
Qed.

(** X18. For an image of [rows] by [cols] values with both dimensions
    below 2^15, a patch size of at most [rows] and [cols] and a step
    between 1 and [cols - sizepatch], none of the unsigned and signed
    machine operations of [image2vec] wraps and no access leaves the image:
    the call returns [(cols-sizepatch)*(rows-sizepatch)/(step*step)]
    patches, the patch [count] holding the [sizepatch] by [sizepatch]
    pixels below and right of row [step * (count / per_row)] and column
    [step * (count mod per_row)] when that square ends strictly before the
    last row and the last column, and zeros otherwise. *)
Theorem image2vec_patches (s : S) :
  image2vec zero data rows cols sizepatch step s
  = Ret (expected_patches zero data rows cols sizepatch step) s.
Proof.
  destruct grid_count_bound as (Hgrid0 & Hgrid & Hsmall).
  destruct patches_per_row_exact as (Hper & Hone).
  unfold image2vec.
  destruct (0 <? step) eqn:Hstep; [| apply Z.ltb_ge in Hstep; lia].
  rewrite bind_ret_l.
  rewrite (to_uint_small (step * step)) by nia.
  destruct (step * step =? 0) eqn:Hss; [apply Z.eqb_eq in Hss; nia |].
  rewrite bind_ret_l.
  rewrite patch_count_exact. unfold fold_i.
  assert (Harea : to_uint (sizepatch * sizepatch) = sizepatch * sizepatch).
  { apply to_uint_small.
    assert (sizepatch * sizepatch <= 2 ^ 15 * 2 ^ 15)
      by (apply Z.mul_le_mono_nonneg; lia).
    nia. }
  rewrite Harea.
  set (count_all := grid_count rows cols sizepatch step) in *.
  set (blank := replicate area zero).
  destruct (fill_range_from
              (fun (k : nat) (res : list (list A)) =>
                 do_ (if patches_per_row cols sizepatch step =? 0
                      then abort DivByZero else ret tt);
                 if patch_inside rows cols sizepatch step
                      (to_int (0 + Z.of_nat k))
                 then
                   do patch <- checked OutOfBounds
                                 (at_index res (to_int (0 + Z.of_nat k)));
                   do patch' <- fill_patch data cols sizepatch step
                                  (to_int (0 + Z.of_nat k)) patch;
                   ret (<[Z.to_nat (to_int (0 + Z.of_nat k)) := patch']> res)
                 else ret res)
              (fun k => expected_patch zero data rows cols sizepatch step
                          (Z.of_nat k))
              (replicate (Z.to_nat count_all) blank)
              (Z.to_nat (count_all - 0)) 0%nat
              (replicate (Z.to_nat count_all) blank) s)
    as (d & Hrun & Hd & _ & Hin).
  - intros k acc' s' Hk Hlen Hblank.
    rewrite length_replicate in Hlen.
    rewrite lookup_replicate_2 in Hblank by lia.
    assert (Hcount : 0 <= Z.of_nat k < count_all) by lia.
    destruct (position_exact (Z.of_nat k) Hcount) as (Hint & _).
    replace (0 + Z.of_nat k) with (Z.of_nat k) by lia.
    rewrite Hint, Hper.
    destruct (per_row =? 0) eqn:Hzero; [apply Z.eqb_eq in Hzero; lia |].
    rewrite bind_ret_l.
    unfold expected_patch.
    rewrite <- (patch_inside_exact (Z.of_nat k) Hcount).
    destruct (patch_inside rows cols sizepatch step (Z.of_nat k))
      eqn:Hinside.
    + assert (Hat : at_index acc' (Z.of_nat k) = Some blank).
      { rewrite <- Hblank, <- (at_index_of_nat acc' k). f_equal. }
      rewrite Hat. unfold checked at 1. rewrite bind_ret_l.
      rewrite (bind_step _ _ _ _ _
                 (fill_patch_returns (Z.of_nat k) blank s' Hcount Hinside
                    (length_replicate _ _))).
      rewrite Nat2Z.id. reflexivity.
    + rewrite list_insert_id by exact Hblank. reflexivity.
  - reflexivity.
  - reflexivity.
  - rewrite length_replicate. lia.
  - transitivity (Ret d s); [exact Hrun |].
    f_equal. unfold expected_patches.
    rewrite length_replicate in Hd.
    apply list_eq. intros k.
    destruct (decide (k < Z.to_nat count_all)%nat) as [Hk | Hk].
    + rewrite (Hin k) by lia.
      rewrite list_lookup_fmap, lookup_seq_lt by lia. reflexivity.
    + rewrite !lookup_ge_None_2;
        [reflexivity | rewrite length_fmap, length_seq; lia | lia].
Qed.

End NoWrap.

(** X19. For [rows] and [cols] below 2^15, a patch size between 0 and
    both [rows] and [cols], and a step of at least 1: when the step is
    larger than [cols - sizepatch], so that no patch fits a row, but
    [step * step] is still at most [(cols-sizepatch)*(rows-sizepatch)],
    [image2vec] has patches to fill and divides by
    [(cols-sizepatch)/step = 0] at the first of them. *)
Theorem image2vec_divides_by_zero (s : S) :
  cols - sizepatch < step ->
  step * step <= (cols - sizepatch) * (rows - sizepatch) ->
  image2vec zero data rows cols sizepatch step s = Abort DivByZero.
Proof.
  intros Hwide Hroom.
  destruct grid_count_bound as (_ & _ & Hsmall).
  assert (Hcount : patch_count rows cols sizepatch step
                   = grid_count rows cols sizepatch step).
  { unfold patch_count, grid_count.
    rewrite (to_uint_small (cols - sizepatch)) by lia.
    rewrite (to_uint_small (rows - sizepatch)) by lia.
    rewrite (to_uint_small ((cols - sizepatch) * (rows - sizepatch)))
      by nia.
    rewrite (to_uint_small (step * step)) by nia.
    reflexivity. }
  assert (Hsome : 1 <= grid_count rows cols sizepatch step).
  { unfold grid_count. apply Z.div_le_lower_bound; nia. }
  assert (Hper : patches_per_row cols sizepatch step = 0).
  { unfold patches_per_row. rewrite to_uint_small by lia.
    apply Z.div_small. lia. }
  unfold image2vec.
  destruct (0 <? step) eqn:Hstep; [| apply Z.ltb_ge in Hstep; lia].
  rewrite bind_ret_l.
  rewrite (to_uint_small (step * step)) by nia.
  destruct (step * step =? 0) eqn:Hss; [apply Z.eqb_eq in Hss; nia |].
  rewrite bind_ret_l.
  rewrite Hcount, Hper. unfold fold_i.
  destruct (Z.to_nat (grid_count rows cols sizepatch step - 0)) as [|n] eqn:Hn;
    [lia |].
  reflexivity.
Qed.

End ImageFacts.

(** ** The chain with several outputs *)

Import ToyMore.

Lemma label2vector_one_hot_witness :
  exists v,
    label2vector 1 (net_fan [1%Q; 5%Q; 3%Q]) = Ret v (net_fan [1%Q; 5%Q; 3%Q])
    /\ length v = 3%nat
    /\ v !! 1%nat = Some 1%Q
    /\ forall i, i <> 1%nat -> (i < 3)%nat -> v !! i = Some 0%Q.
Proof.
  refine (label2vector_one_hot (net_fan [1%Q; 5%Q; 3%Q])
            (fan_layer [1%Q; 5%Q; 3%Q]) 1 _ _).
  - reflexivity.
  - simpl. lia.
Defined.

(** [first_maximum] gives the index of a maximum. *)
Lemma argmax_greatest (v : list Q) :
  forall (seen : list Q) (best : Q) (best_index : nat),
    seen !! best_index = Some best ->
    (forall e, e ∈ seen -> Qle_bool e best = true) ->
    exists m,
      (seen ++ v) !! argmax best best_index (length seen) v = Some m
      /\ forall e, e ∈ seen ++ v -> Qle_bool e m = true.
Proof.
  induction v as [|x rest IH]; intros seen best best_index Hbest Hall.
  - exists best. rewrite app_nil_r. split; [exact Hbest | exact Hall].
  - cbn [argmax].
    replace (seen ++ x :: rest) with ((seen ++ [x]) ++ rest)
      by (rewrite <- app_assoc; reflexivity).
    replace (Datatypes.S (length seen)) with (length (seen ++ [x]))
      by (rewrite length_app; simpl; lia).
    destruct (Qle_bool x best) eqn:Hx.
    + apply IH.
      * apply lookup_app_l_Some. exact Hbest.
      * intros e He. apply elem_of_app in He as [He | He];
          [apply Hall; exact He |].
        apply list_elem_of_singleton in He. subst. exact Hx.
    + apply IH.
      * rewrite lookup_app_r by lia.
        replace (length seen - length seen)%nat with 0%nat by lia.
        reflexivity.
      * assert (Hlt : (best < x)%Q).
        { apply Qnot_le_lt. rewrite <- Qle_bool_iff. congruence. }
        intros e He. apply elem_of_app in He as [He | He].
        -- apply Qle_bool_iff. apply Qle_trans with best.
           ++ apply Qle_bool_iff. apply Hall. exact He.
           ++ apply Qlt_le_weak. exact Hlt.
        -- apply list_elem_of_singleton in He. subst.
           apply Qle_bool_iff. apply Qle_refl.
Qed.

Lemma first_maximum_greatest (v : list Q) :
  v <> [] -> index_of_maximum v (first_maximum v).
Proof.
  destruct v as [|x rest]; [congruence |]. intros _.
  destruct (argmax_greatest rest [x] x 0%nat) as (m & Hm & Hall).
  - reflexivity.
  - intros e He. apply list_elem_of_singleton in He. subst.
    apply Qle_bool_iff. apply Qle_refl.
  - exists m. split; [exact Hm |].
    intros e He. cbn. rewrite (Hall e He). reflexivity.
Qed.

Lemma test_counts_witness :
  exists r s',
    test [[1%Q]; [2%Q]; [(-1)%Q]] [1%nat; 0%nat; 0%nat]
      (net_fan [1%Q; 5%Q; 3%Q]) = Ret r s'
    /\ cm_total (confusion_matrix r) = num_total r
    /\ num_total r = 3
    /\ num_success r
       = agreements
           (first_maximum
              <$> forward_outputs [[1%Q]; [2%Q]; [(-1)%Q]]
                    (layers_ (net_fan [1%Q; 5%Q; 3%Q])))
           [1%nat; 0%nat; 0%nat]
    /\ forall i out,
         forward_outputs [[1%Q]; [2%Q]; [(-1)%Q]]
           (layers_ (net_fan [1%Q; 5%Q; 3%Q])) !! i = Some out ->
         out <> [] -> index_of_maximum out (first_maximum out).
Proof.
  eexists _, _. split; [vm_compute; reflexivity |].
  refine (test_counts [[1%Q]; [2%Q]; [(-1)%Q]] [1%nat; 0%nat; 0%nat]
            (net_fan [1%Q; 5%Q; 3%Q]) _ _ first_maximum_greatest _ _).
  - reflexivity.
  - vm_compute. reflexivity.
Defined.

(** On that chain the three inputs are given the labels 1, 1 and 0, two
    of which are the actual ones. *)
Example test_counts_on_three_outputs :
  max_index
    <$> forward_outputs [[1%Q]; [2%Q]; [(-1)%Q]]
          (layers_ (net_fan [1%Q; 5%Q; 3%Q]))
  = [1%nat; 1%nat; 0%nat]
  /\ exists r s',
       test [[1%Q]; [2%Q]; [(-1)%Q]] [1%nat; 0%nat; 0%nat]
         (net_fan [1%Q; 5%Q; 3%Q]) = Ret r s'
       /\ num_success r = 2 /\ num_total r = 3.
Proof.
  split; [vm_compute; reflexivity |].
  eexists _, _. split; [vm_compute; reflexivity |].
  split; reflexivity.
Qed.

(** ** The rest of the class on the small networks *)


Lemma toy_gt_irreflexive (a : Q) : fgt a a = false.
Proof.
  cbn. apply negb_false_iff. apply Qle_bool_iff. apply Qle_refl.
Qed.

Lemma toy_gt_transitive (a b c : Q) :
  fgt a b = true -> fgt b c = true -> fgt a c = true.
Proof.
  cbn. rewrite !negb_true_iff. intros Hab Hbc.
  destruct (Qle_bool a c) eqn:Hac; [| reflexivity].
  apply Qle_bool_iff in Hac.
  assert (Hcb : ~ (b <= c)%Q) by (rewrite <- Qle_bool_iff; congruence).
  assert (Hba : ~ (a <= b)%Q) by (rewrite <- Qle_bool_iff; congruence).
  apply Qnot_le_lt in Hcb, Hba.
  exfalso. apply (Qlt_irrefl a).
  apply Qle_lt_trans with c; [exact Hac |].
  apply Qlt_trans with b; assumption.
Qed.


Lemma check_training_data_labels_witness :
  check_training_data check_t_label [[1%Q]; [2%Q]] [0%nat; 0%nat] (net0 1)
  = data_ok
  <-> length [[1%Q]; [2%Q]] = length [0%nat; 0%nat]
      /\ Forall (fun x : list Q => length x = 1%nat) [[1%Q]; [2%Q]]
      /\ Forall (fun l => (l < 1)%nat) [0%nat; 0%nat].
Proof.
  refine (check_training_data_labels [[1%Q]; [2%Q]] [0%nat; 0%nat] (net0 1)
            input_layer (square_layer 1) _ _).
  - reflexivity.
  - reflexivity.
Defined.

Lemma check_training_data_vectors_witness :
  check_training_data check_t_vec samples targets (net0 1) = data_ok
  <-> length samples = length targets
      /\ Forall (fun x : list Q => length x = 1%nat) samples
      /\ Forall (fun v : list Q => length v = 1%nat) targets.
Proof.
  refine (check_training_data_vectors samples targets (net0 1) input_layer
            (square_layer 1) _ _).
  - reflexivity.
  - reflexivity.
Defined.

Lemma check_training_data_first_error_witness :
  exists k x l,
    [[1%Q]; [2%Q]] !! k = Some x /\ [0%nat; 1%nat] !! k = Some l
    /\ (forall k' x' l', (k' < k)%nat ->
          [[1%Q]; [2%Q]] !! k' = Some x' -> [0%nat; 1%nat] !! k' = Some l' ->
          length x' = 1%nat /\ (l' < 1)%nat)
    /\ ((length x <> 1%nat
         /\ label_out_of_range 1 1 = input_dimension k (length x))
        \/ (length x = 1%nat /\ (1 <= l)%nat
            /\ label_out_of_range 1 1 = label_out_of_range k l)).
Proof.
  refine (check_training_data_first_error [[1%Q]; [2%Q]] [0%nat; 1%nat]
            (net0 2) input_layer (square_layer 2) (label_out_of_range 1 1)
            _ _ _ _).
  - reflexivity.
  - reflexivity.
  - reflexivity.
  - vm_compute. reflexivity.
Defined.

Lemma checked_data_propagates_witness :
  (exists out s', fprop [2%Q] 0 (net0 1) = Ret out s')
  /\ (exists v, label2vector 0 (net0 1) = Ret v (net0 1)).
Proof.
  refine (checked_data_propagates [[1%Q]; [2%Q]] [0%nat; 0%nat] (net0 1)
            1%nat [2%Q] 0%nat 0 _ _ _).
  - vm_compute. reflexivity.
  - reflexivity.
  - reflexivity.
Defined.

Lemma test_confusion_matrix_witness :
  exists r s',
    test [[1%Q]; [2%Q]] [0%nat; 1%nat] (net0 1) = Ret r s'
    /\ cm_cell (confusion_matrix r) 0 1
       = pair_count 0 1 (predicted_labels [[1%Q]; [2%Q]] (net0 1))
           [0%nat; 1%nat].
Proof.
  eexists _, _. split; [vm_compute; reflexivity |].
  refine (test_confusion_matrix [[1%Q]; [2%Q]] [0%nat; 1%nat] (net0 1) _ _
            0%nat 1%nat _).
  vm_compute. reflexivity.
Defined.

Lemma test_labels_witness :
  exists r s',
    test [[1%Q]; [2%Q]] [0%nat; 1%nat] (net0 1) = Ret r s'
    /\ labels r
       = list_to_set (predicted_labels [[1%Q]; [2%Q]] (net0 1))
         ∪ list_to_set (take (length [[1%Q]; [2%Q]]) [0%nat; 1%nat]).
Proof.
  eexists _, _. split; [vm_compute; reflexivity |].
  refine (test_labels [[1%Q]; [2%Q]] [0%nat; 1%nat] (net0 1) _ _ _).
  vm_compute. reflexivity.
Defined.

Lemma test_outputs_are_predictions_witness :
  exists res s',
    test_outputs samples (net0 1) = Ret res s'
    /\ res = predicted_outputs samples (net0 1)
    /\ length res = length samples.
Proof.
  eexists _, _. split; [vm_compute; reflexivity |].
  refine (test_outputs_are_predictions samples _ (net0 1) _ _).
  vm_compute. reflexivity.
Defined.

Lemma get_loss_all_in_bounds_witness :
  get_loss_all squared_error [[1%Q]; [2%Q]]
    [[0%Q; 0%Q; 0%Q]; [1%Q; 1%Q; 1%Q]] (net_fan [1%Q; 5%Q; 3%Q])
  <> Abort OutOfBounds
  /\ get_loss_all squared_error [[1%Q]; [2%Q]]
       [[0%Q; 0%Q; 0%Q]; [1%Q; 1%Q; 1%Q]] (net_fan [1%Q; 5%Q; 3%Q])
     <> Abort AssertFailed.
Proof.
  refine (get_loss_all_in_bounds squared_error [[1%Q]; [2%Q]]
            [[0%Q; 0%Q; 0%Q]; [1%Q; 1%Q; 1%Q]] (net_fan [1%Q; 5%Q; 3%Q])
            _ _).
  - simpl. lia.
  - intros i out ti Hout Hti.
    destruct i as [|[|i]]; inversion Hout; inversion Hti; subst;
      reflexivity.
Defined.

Lemma evaluation_keeps_params_witness :
  keeps_params (test samples [0%nat; 0%nat])
  /\ keeps_params (test_outputs samples)
  /\ keeps_params (get_loss_all squared_error samples targets)
  /\ keeps_params (predict_max_value [1%Q]).
Proof.
  refine (evaluation_keeps_params squared_error toy_forward_keeps samples
            targets [0%nat; 0%nat] [1%Q]).
Defined.

Lemma predict_max_value_greatest_witness :
  exists m s',
    predict_max_value [1%Q] (net_fan [1%Q; 5%Q; 5%Q]) = Ret m s'
    /\ exists out,
         fprop [1%Q] 0 (net_fan [1%Q; 5%Q; 5%Q]) = Ret out s'
         /\ m ∈ out /\ forall e, e ∈ out -> fgt e m = false.
Proof.
  eexists _, _. split; [vm_compute; reflexivity |].
  refine (proj1 (predict_max_value_greatest toy_gt_irreflexive
                   toy_gt_transitive [1%Q] (net_fan [1%Q; 5%Q; 5%Q])) _ _ _).
  vm_compute. reflexivity.
Defined.

(** On that chain the output is [1; 5; 5] and the value returned 5. *)
Example predict_max_value_of_three :
  exists s',
    fprop [1%Q] 0 (net_fan [1%Q; 5%Q; 5%Q]) = Ret [1%Q; 5%Q; 5%Q] s'
    /\ predict_max_value [1%Q] (net_fan [1%Q; 5%Q; 5%Q]) = Ret 5%Q s'.
Proof. eexists. split; vm_compute; reflexivity. Qed.

(** A chain of two layers has the same weights as a chain of one layer
    whose head agrees with its own: the second layer is not looked at. *)
Example has_same_weights_ignores_depth :
  has_same_weights close (net0 1) net_shallow 0%Q = true.
Proof. vm_compute. reflexivity. Qed.

Lemma train_nothing_to_do_witness :
  training 0 1 1 1 1 <> None
  /\ forall b log s',
       training 0 1 1 1 1 = Some (Ret (b, log) s') ->
       b = true /\ log = [].
Proof.
  refine (train_nothing_to_do squared_error (constant_input 1)
            (constant_target 0) no_callback no_callback 0 1 1 0%nat 1 false
            (net0 1) _).
  left. lia.
Defined.

Lemma train_minibatch_offsets_witness :
  exists log s',
    training 3 2 4 2 1 = Some (Ret (true, log) s')
    /\ fst <$> log = mjoin (replicate (Z.to_nat 2) (batch_offsets 3 2)).
Proof.
  eexists _, _. split; [vm_compute; reflexivity |].
  refine (train_minibatch_offsets squared_error (constant_input 1)
            (constant_target 0) no_callback no_callback 3 2 1 _ _ _
            4%nat 2 false (net0 1) _ _ _).
  - lia.
  - lia.
  - vm_compute. reflexivity.
  - vm_compute. reflexivity.
Defined.

Lemma calc_hessian_reads_first_500_witness :
  calc_hessian squared_error (list_input samples) 2 500 (net0 1)
  = calc_hessian squared_error (list_input (samples ++ [[7%Q]])) 2 500
      (net0 1).
Proof.
  refine (calc_hessian_reads_first_500 squared_error (list_input samples)
            (list_input (samples ++ [[7%Q]])) 2 (net0 1) _ _).
  - lia.
  - intros i s' Hi.
    assert (Hcases : i = 0 \/ i = 1) by lia.
    destruct Hcases as [-> | ->]; reflexivity.
Defined.

Lemma train_onebatch_partition_witness :
  train_onebatch squared_error (list_input samples) (list_target targets)
    0 2 2 (net0 1)
  = (do_ for_i (Z.min 2 2)
           (onebatch_worker squared_error (list_input samples)
              (list_target targets) 0 2 ((2 + Z.min 2 2 - 1) / Z.min 2 2));
     layers_update_weights (Z.min 2 2) 2) (net0 1)
  /\ (forall (i : Z) (s1 : network Q shape unit),
        0 <= i < Z.min 2 2 ->
        onebatch_worker squared_error (list_input samples)
          (list_target targets) 0 2 ((2 + Z.min 2 2 - 1) / Z.min 2 2) i s1
        = for_int (0 + Z.min 2 (i * ((2 + Z.min 2 2 - 1) / Z.min 2 2)))
            (0 + Z.min 2 ((i + 1) * ((2 + Z.min 2 2 - 1) / Z.min 2 2)))
            (fun j =>
               process_sample squared_error (list_input samples)
                 (list_target targets) j i)
            s1)
  /\ 2 <= Z.min 2 2 * ((2 + Z.min 2 2 - 1) / Z.min 2 2).
Proof.
  refine (train_onebatch_partition squared_error (list_input samples)
            (list_target targets) 0 2 2 _ _ _ _ (net0 1)).
  - lia.
  - lia.
  - lia.
  - vm_compute. discriminate.
Defined.

Lemma gradient_check_unknown_mode_witness :
  gradient_check squared_error draw_first [[1%Q]] [0%nat] 1 1%Q
    (grad_check_other 7) net_weightless
  = Ret true net_weightless
  /\ gradient_check squared_error draw_first [[1%Q]] [0%nat] 1 1%Q
       (grad_check_other 7) (net0 1)
     = Throw unknown_grad_check_type (net0 1).
Proof.
  split.
  - refine (proj1 (gradient_check_unknown_mode squared_error draw_first
                     [[1%Q]] [0%nat] 1 1%Q 7 net_weightless net_weightless
                     [[1%Q]] _ _ _) _).
    + discriminate.
    + vm_compute. reflexivity.
    + intros k l Hk Hl. destruct k as [|[|k]]; [lia | | discriminate Hl].
      inversion Hl; subst. split; eexists; reflexivity.
    + intros k l Hk Hl. destruct k as [|[|k]]; [lia | | discriminate Hl].
      inversion Hl; subst. reflexivity.
  - refine (proj2 (gradient_check_unknown_mode squared_error draw_first
                     [[1%Q]] [0%nat] 1 1%Q 7 (net0 1) (net0 1)
                     [[1%Q]] _ _ _) _).
    + discriminate.
    + vm_compute. reflexivity.
    + intros k l Hk Hl. destruct k as [|[|k]]; [lia | | discriminate Hl].
      inversion Hl; subst. split; eexists; reflexivity.
    + exists 1%nat, (square_layer 1).
      split; [lia |]. split; [reflexivity | discriminate].
Defined.


Lemma image2vec_patches_witness :
  image2vec 0%Q image 3 4 2 1 tt
  = Ret [[1%Q; 2%Q; 5%Q; 6%Q]; [2%Q; 3%Q; 6%Q; 7%Q]] tt.
Proof.
  refine (image2vec_patches 0%Q image 3 4 2 1 _ _ _ _ _ _ _ _ tt).
  - lia.
  - lia.
  - lia.
  - lia.
  - lia.
  - lia.
  - lia.
  - simpl. lia.
Defined.

Lemma image2vec_divides_by_zero_witness :
  image2vec 0%Q image 6 2 1 2 tt = Abort DivByZero.
Proof.
  refine (image2vec_divides_by_zero 0%Q image 6 2 1 2 _ _ _ _ _ _ tt _ _).
  - lia.
  - lia.
  - lia.
  - lia.
  - lia.
  - lia.
  - lia.
  - lia.
Defined.
